(** * Devis: quotes, invoices, serial tracking and stock reconciliation

    A shallow embedding of [devis.py]: the record loaders, the serial
    numbering of invoice units, the pricing computation and the two-pass
    stock adjustment run when an invoice is saved.

    Integers ([int]) are [Z].  Monetary amounts ([float] in the source,
    "decimal" in the specification) are exact rationals [Q]: rounding of
    binary floating point is outside this model.  Python lists are lists;
    the dictionaries with a fixed set of keys (a serial entry, a material
    entry) are records.  The stock ledger [STOCK_DB] is a list of
    [StockItem] objects that the save handler mutates in place; here the
    list is threaded through the passes. *)

From Stdlib Require Import ZArith QArith Qminmax String Ascii List Bool Lia Lqa.
From Stdlib Require Import Permutation.
From Stdlib Require Import DecimalString DecimalN.
Import ListNotations.

Local Open Scope string_scope.
Local Open Scope list_scope.
Local Open Scope Z_scope.

(* ================================================================== *)
(** * Part I: definitions *)
(* ================================================================== *)

(** ** Data models *)

(** [@dataclass StockItem] *)
Module StockItem.
Record t : Type := mk
  { name : string;
    color : string;
    lot_number : string;
    entry_date : string;
    quantity : Z }.
End StockItem.

(** A material entry of a serial: [{"name": .., "lot": .., "qty": ..}] *)
Module Mat.
Record t : Type := mk
  { name : string;
    lot : string;
    qty : Z }.
End Mat.

(** A serial entry: [{"serial": .., "product": .., "materials": [..]}] *)
Module Serial.
Record t : Type := mk
  { serial : string;
    product : string;
    materials : list Mat.t }.
End Serial.

(** [@dataclass Item] *)
Module Item.
Record t : Type := mk
  { description : string;
    unit_price : Q;
    quantity : Z }.
End Item.

(** ** Stock adjustment of the invoice save handler *)

(** [next((x for x in l if p(x)), None)] *)
Definition next {A : Type} (p : A -> bool) (l : list A) : option A := find p l.

(** [next((m for m in STOCK_DB if m.lot_number == lot), None)] *)
Definition find_stock (STOCK_DB : list StockItem.t) (lot : string)
  : option StockItem.t :=
  next (fun m => StockItem.lot_number m =? lot)%string STOCK_DB.

(** [next((s for s in serials if s["serial"] == serial), None)] *)
Definition find_serial (serials : list Serial.t) (serial : string)
  : option Serial.t :=
  next (fun s => Serial.serial s =? serial)%string serials.

(** The assignment [stock_item.quantity = f(stock_item.quantity)] on the
    object that [find_stock] returns: the first entry of the list with
    that lot number is the one mutated. *)
Fixpoint update_stock (lot : string) (f : Z -> Z) (STOCK_DB : list StockItem.t)
  : list StockItem.t :=
  match STOCK_DB with
  | [] => []
  | m :: rest =>
      if (StockItem.lot_number m =? lot)%string
      then StockItem.mk (StockItem.name m) (StockItem.color m)
             (StockItem.lot_number m) (StockItem.entry_date m)
             (f (StockItem.quantity m)) :: rest
      else m :: update_stock lot f rest
  end.

(** [next((m2["qty"] for m2 in old_entry["materials"] if m2["lot"] == lot), dflt)]
    guarded by [if old_entry:], with [dflt] kept when there is no entry. *)
Definition old_qty_of (old_entry : option Serial.t) (lot : string) (dflt : Z) : Z :=
  match old_entry with
  | None => dflt
  | Some oe =>
      match next (fun m2 => Mat.lot m2 =? lot)%string (Serial.materials oe) with
      | Some m2 => Mat.qty m2
      | None => dflt
      end
  end.

(** Body of the inner loop of the consumption pass (one [mat] of one
    new serial). *)
Definition consume_mat (old_entry : option Serial.t)
    (STOCK_DB : list StockItem.t) (mat : Mat.t) : list StockItem.t :=
  match find_stock STOCK_DB (Mat.lot mat) with
  | Some _ =>
      let old_qty := old_qty_of old_entry (Mat.lot mat) 0 in
      let diff := Mat.qty mat - old_qty in
      update_stock (Mat.lot mat) (fun q => q - diff) STOCK_DB
  | None => STOCK_DB
  end.

(** Body of the outer loop of the consumption pass (one new serial). *)
Definition consume_serial (old_serials : list Serial.t)
    (STOCK_DB : list StockItem.t) (ns : Serial.t) : list StockItem.t :=
  let old_entry := find_serial old_serials (Serial.serial ns) in
  fold_left (consume_mat old_entry) (Serial.materials ns) STOCK_DB.

(** "Ajustement stock par différence" *)
Definition consumption_pass (old_serials new_serials : list Serial.t)
    (STOCK_DB : list StockItem.t) : list StockItem.t :=
  fold_left (consume_serial old_serials) new_serials STOCK_DB.

(** [stock_item = next(..); if stock_item: stock_item.quantity += om["qty"]] *)
Definition credit_mat (STOCK_DB : list StockItem.t) (om : Mat.t)
  : list StockItem.t :=
  match find_stock STOCK_DB (Mat.lot om) with
  | Some _ => update_stock (Mat.lot om) (fun q => q + Mat.qty om) STOCK_DB
  | None => STOCK_DB
  end.

(** [any(m["lot"] == lot for m in still_present["materials"])] *)
Definition still_used (still_present : Serial.t) (lot : string) : bool :=
  existsb (fun m => Mat.lot m =? lot)%string (Serial.materials still_present).

(** Body of the loop of the recredit pass (one old serial). *)
Definition recredit_serial (new_serials : list Serial.t)
    (STOCK_DB : list StockItem.t) (old : Serial.t) : list StockItem.t :=
  match find_serial new_serials (Serial.serial old) with
  | Some still_present =>
      fold_left
        (fun db om =>
           if negb (still_used still_present (Mat.lot om))
           then credit_mat db om
           else db)
        (Serial.materials old) STOCK_DB
  | None =>
      fold_left credit_mat (Serial.materials old) STOCK_DB
  end.

(** "Récréditer les lots qui ont disparu" *)
Definition recredit_pass (old_serials new_serials : list Serial.t)
    (STOCK_DB : list StockItem.t) : list StockItem.t :=
  fold_left (recredit_serial new_serials) old_serials STOCK_DB.

(** The two passes of the save handler, in the order they run. *)
Definition reconcile (old_serials new_serials : list Serial.t)
    (STOCK_DB : list StockItem.t) : list StockItem.t :=
  recredit_pass old_serials new_serials
    (consumption_pass old_serials new_serials STOCK_DB).

(** *** Observations on a ledger *)

(** Quantity on hand of a lot: the quantity of the entry a lookup by lot
    number reaches; [None] when the ledger has no such lot. *)
Definition qty_of (STOCK_DB : list StockItem.t) (lot : string) : option Z :=
  option_map StockItem.quantity (find_stock STOCK_DB lot).

Definition lots_of (STOCK_DB : list StockItem.t) : list string :=
  map StockItem.lot_number STOCK_DB.

Definition sumZ (l : list Z) : Z := fold_right Z.add 0 l.

(** Sum of the quantities a binding records for one lot. *)
Definition lot_total (s : Serial.t) (lot : string) : Z :=
  sumZ (map Mat.qty
          (filter (fun m => Mat.lot m =? lot)%string (Serial.materials s))).

(** Sum of the quantities a list of bindings records for one lot. *)
Definition bound_total (serials : list Serial.t) (lot : string) : Z :=
  sumZ (map (fun s => lot_total s lot) serials).

Definition unique_serials (serials : list Serial.t) : Prop :=
  NoDup (map Serial.serial serials).

Definition unique_lots (s : Serial.t) : Prop :=
  NoDup (map Mat.lot (Serial.materials s)).

Definition well_formed (serials : list Serial.t) : Prop :=
  unique_serials serials /\ Forall unique_lots serials.

Definition non_negative (STOCK_DB : list StockItem.t) : Prop :=
  Forall (fun m => 0 <= StockItem.quantity m) STOCK_DB.

(** *** The adjustments as a list of signed deltas

    Neither pass reads a ledger quantity to decide what to do, so the
    adjustments one save performs are a list of [(lot, delta)] pairs that
    depends on the bindings only.  These lists are used to reason about
    [reconcile]; [reconcile_deltas] below relates them to the loops. *)

Definition apply_delta (STOCK_DB : list StockItem.t) (op : string * Z)
  : list StockItem.t :=
  update_stock (fst op) (fun q => q + snd op) STOCK_DB.

Definition apply_deltas (ops : list (string * Z)) (STOCK_DB : list StockItem.t)
  : list StockItem.t :=
  fold_left apply_delta ops STOCK_DB.

Definition consumption_deltas (old_serials new_serials : list Serial.t)
  : list (string * Z) :=
  flat_map
    (fun ns =>
       map (fun mat =>
              (Mat.lot mat,
               old_qty_of (find_serial old_serials (Serial.serial ns))
                 (Mat.lot mat) 0 - Mat.qty mat))
         (Serial.materials ns))
    new_serials.

Definition recredit_deltas (old_serials new_serials : list Serial.t)
  : list (string * Z) :=
  flat_map
    (fun old =>
       map (fun om => (Mat.lot om, Mat.qty om))
         (match find_serial new_serials (Serial.serial old) with
          | Some still_present =>
              filter (fun om => negb (still_used still_present (Mat.lot om)))
                (Serial.materials old)
          | None => Serial.materials old
          end))
    old_serials.

Definition net (ops : list (string * Z)) (lot : string) : Z :=
  sumZ (map snd (filter (fun op => fst op =? lot)%string ops)).

(** *** Sums over two lists matched by a key

    Both passes pair an entry of one list with the entry of the other list
    that has the same serial: summing a quantity [phi x y] over the
    matched pairs, seen from either list. *)

Section MatchedSumsDef.
Variables (A B : Type) (keyA : A -> string) (keyB : B -> string).
Variable phi : A -> B -> Z.

Definition matched_from_left (xs : list A) (ys : list B) : Z :=
  sumZ (map (fun x =>
               match next (fun y => keyB y =? keyA x)%string ys with
               | Some y => phi x y
               | None => 0
               end) xs).

Definition matched_from_right (xs : list A) (ys : list B) : Z :=
  sumZ (map (fun y =>
               match next (fun x => keyA x =? keyB y)%string xs with
               | Some x => phi x y
               | None => 0
               end) ys).
End MatchedSumsDef.

Arguments matched_from_left {A B} keyA keyB phi xs ys.
Arguments matched_from_right {A B} keyA keyB phi xs ys.

(** Quantity an old binding had for lot [l], counted when the new binding
    with the same serial still uses [l]. *)
Definition kept (l : string) (ns oe : Serial.t) : Z :=
  if still_used ns l then lot_total oe l else 0.

(** *** Unknown lots *)

(** The guard [if stock_item:] of both passes. *)
Definition known (STOCK_DB : list StockItem.t) (lot : string) : bool :=
  match find_stock STOCK_DB lot with
  | Some _ => true
  | None => false
  end.

(** A binding without its pairs whose lot the ledger does not have. *)
Definition drop_unknown_mats (STOCK_DB : list StockItem.t) (s : Serial.t)
  : Serial.t :=
  Serial.mk (Serial.serial s) (Serial.product s)
    (filter (fun m => known STOCK_DB (Mat.lot m)) (Serial.materials s)).

Definition drop_unknown (STOCK_DB : list StockItem.t)
    (serials : list Serial.t) : list Serial.t :=
  map (drop_unknown_mats STOCK_DB) serials.

(** Every lot a list of bindings refers to is in the ledger. *)
Definition lots_exist (STOCK_DB : list StockItem.t)
    (serials : list Serial.t) : Prop :=
  forall s m, In s serials -> In m (Serial.materials s) ->
              known STOCK_DB (Mat.lot m) = true.

(** *** Ledgers and bindings used in the scenarios *)

Definition lot_entry (lot : string) (q : Z) : StockItem.t :=
  StockItem.mk "Cuir" "noir" lot "2024-01-15" q.

Definition binding (serial : string) (mats : list (string * Z)) : Serial.t :=
  Serial.mk serial "Sac"
    (map (fun lq => Mat.mk "Cuir" (fst lq) (snd lq)) mats).

(** ** Serial numbers of invoice units *)

(** [n] characters ['0'] *)
Fixpoint zeros (n : nat) : string :=
  match n with
  | O => ""
  | S n' => String "0" (zeros n')
  end.

(** The format [{idx:03d}]: decimal digits, a minus sign for a negative
    number, and zeros after the sign up to a width of three characters. *)
Definition format_03d (idx : Z) : string :=
  let digits := NilEmpty.string_of_uint (N.to_uint (Z.abs_N idx)) in
  let sign := if idx <? 0 then "-" else "" in
  (sign ++ zeros (3 - String.length sign - String.length digits) ++ digits)%string.

(** [def generate_serial(quote_no, idx): return f"{quote_no}-{idx:03d}"] *)
Definition generate_serial (quote_no : string) (idx : Z) : string :=
  (quote_no ++ "-" ++ format_03d idx)%string.

(** [enumerate(l)] *)
Definition enumerate {A : Type} (l : list A) : list (nat * A) :=
  combine (seq 0 (List.length l)) l.

(** The loop of the invoice tab that builds [new_serials].  What the
    operator picks in the widgets of unit [q] of line [i] (the list
    [materials_for_serial] built from the selected lots and quantities) is
    an input of the loop; it may depend on the saved serials and on the
    stock, the serial identifier does not. *)
Section SerialLoop.
Variable quote_no : string.
Variable materials_for_serial : nat -> nat -> string -> list Mat.t.

(** Body of [for q in range(it.quantity)]; the state is
    [(serial_counter, new_serials)]. *)
Definition unit_step (i : nat) (it : Item.t)
    (st : Z * list Serial.t) (q : nat) : Z * list Serial.t :=
  let serial_counter := fst st in
  let new_serials := snd st in
  let serial := generate_serial quote_no serial_counter in
  (serial_counter + 1,
   new_serials ++
     [Serial.mk serial (Item.description it)
        (materials_for_serial i q serial)]).

(** Body of [for i, it in enumerate(lines)]. *)
Definition line_step (st : Z * list Serial.t) (i_it : nat * Item.t)
  : Z * list Serial.t :=
  fold_left (unit_step (fst i_it) (snd i_it))
    (seq 0 (Z.to_nat (Item.quantity (snd i_it)))) st.

Definition serial_loop (lines : list Item.t) : Z * list Serial.t :=
  fold_left line_step (enumerate lines) (1, []).

Definition new_serials_of (lines : list Item.t) : list Serial.t :=
  snd (serial_loop lines).
End SerialLoop.

(** Number of physical units of an invoice. *)
Definition total_units (lines : list Item.t) : nat :=
  fold_right (fun it n => (Z.to_nat (Item.quantity it) + n)%nat) O lines.

(** The description of each unit, in order. *)
Definition unit_products (lines : list Item.t) : list string :=
  flat_map (fun it => repeat (Item.description it)
                        (Z.to_nat (Item.quantity it))) lines.

Definition digit (d : Z) : ascii := ascii_of_nat (48 + Z.to_nat d).

(** [k] written with exactly three decimal digits. *)
Definition three_digits (k : Z) : string :=
  String (digit (k / 100))
    (String (digit (k / 10 mod 10)) (String (digit (k mod 10)) "")).

(** ** Pricing *)

(** [it.unit_price * it.quantity] *)
Definition line_total (it : Item.t) : Q :=
  (Item.unit_price it * inject_Z (Item.quantity it))%Q.

(** [sum(...)]: accumulation from 0, left to right. *)
Definition py_sum (l : list Q) : Q := fold_left Qplus l 0%Q.

(** Quote tab: [subtotal = sum(it.unit_price * it.quantity for it in lines)] *)
Definition tab1_subtotal (lines : list Item.t) : Q :=
  py_sum (map line_total lines).

(** [build_pdf], loop of the quote case:
    [for it in items: line_total = ...; subtotal += line_total] *)
Definition subtotal_quote (items : list Item.t) : Q :=
  fold_left (fun subtotal it => (subtotal + line_total it)%Q) items 0%Q.

(** [next((it.unit_price for it in items if it.description == product), 0.0)] *)
Definition unit_price_of (items : list Item.t) (product : string) : Q :=
  match next (fun it => Item.description it =? product)%string items with
  | Some it => Item.unit_price it
  | None => 0%Q
  end.

(** [build_pdf], loop of the invoice-with-serials case:
    [for s in serials: line_total = next(...); subtotal += line_total] *)
Definition subtotal_serials (items : list Item.t) (serials : list Serial.t) : Q :=
  fold_left
    (fun subtotal s => (subtotal + unit_price_of items (Serial.product s))%Q)
    serials 0%Q.

(** The subtotal of [build_pdf]; [serials] is [[]] for [None]. *)
Definition build_pdf_subtotal (status : string) (items : list Item.t)
    (serials : list Serial.t) : Q :=
  if (status =? "invoice")%string && negb (Nat.eqb (List.length serials) 0)
  then subtotal_serials items serials
  else subtotal_quote items.

(** [min(a, b)]: [b] only when [b < a]. *)
Definition py_min (a b : Q) : Q :=
  match (b ?= a)%Q with
  | Lt => b
  | _ => a
  end.

(** [subtotal * (discount_value / 100.0) if discount_is_percent
     else min(discount_value, subtotal)] *)
Definition discount_amount (subtotal discount_value : Q)
    (discount_is_percent : bool) : Q :=
  if discount_is_percent
  then (subtotal * (discount_value / 100))%Q
  else py_min discount_value subtotal.

Definition vat_amount : Q := 0%Q.

(** [build_pdf]: [total = subtotal - discount_amount + vat_amount] *)
Definition build_pdf_total (subtotal discount_value : Q)
    (discount_is_percent : bool) : Q :=
  (subtotal - discount_amount subtotal discount_value discount_is_percent
   + vat_amount)%Q.

(** Quote tab: [total = subtotal - discount_amount] *)
Definition tab1_total (subtotal discount_value : Q)
    (discount_is_percent : bool) : Q :=
  (subtotal - discount_amount subtotal discount_value discount_is_percent)%Q.

(** Sum of the per-line products, the subtotal of the specification. *)
Definition sumQ (l : list Q) : Q := fold_right Qplus 0%Q l.

Definition sum_of_products (items : list Item.t) : Q :=
  sumQ (map line_total items).

(** What the specification asks of the discount and the total computed
    from a subtotal: the discount is the percentage of the subtotal or the
    smaller of the value and the subtotal, lies between 0 and the
    subtotal, and the total is the subtotal less the discount and is not
    negative. *)
Definition totals_ok (subtotal discount_value : Q) (discount_is_percent : bool)
    (discount total : Q) : Prop :=
  (discount == (if discount_is_percent
                then subtotal * (discount_value / 100)
                else Qmin discount_value subtotal)
   /\ 0 <= discount /\ discount <= subtotal
   /\ total == subtotal - discount /\ 0 <= total)%Q.

(** Two lines with the same description and different prices. *)
Definition same_description_items : list Item.t :=
  [Item.mk "Sac" 10 1; Item.mk "Sac" 20 1].

(** Unit prices and quantities are non-negative. *)
Definition non_negative_items (items : list Item.t) : Prop :=
  Forall (fun it => (0 <= Item.unit_price it)%Q /\ 0 <= Item.quantity it) items.

(** The serial given when the counter stands at [c + j]. *)
Definition serial_from (quote_no : string) (c : Z) (j : nat) : string :=
  generate_serial quote_no (c + Z.of_nat j).

(** ** CSV loaders *)

Module Store.

(** Values as Python holds them in the fields of the loaded records:
    what [json.loads] returns, and the cells of a CSV row. *)
#[local] Unset Elimination Schemes.
Inductive value : Type :=
| VNone
| VBool (b : bool)
| VInt (z : Z)
| VFloat (q : Q)
| VStr (s : string)
| VList (l : list value)
| VDict (kvs : list (string * value)).
#[local] Set Elimination Schemes.

Inductive exn : Type :=
| FileNotFoundError
| KeyError
| ValueError
| TypeError
| JSONDecodeError.

Inductive result (A : Type) : Type :=
| Ok (a : A)
| Raise (e : exn).
Arguments Ok {A} a.
Arguments Raise {A} e.

Definition bind {A B : Type} (c : result A) (k : A -> result B) : result B :=
  match c with
  | Ok a => k a
  | Raise e => Raise e
  end.

Notation "x <- c ;; k" := (bind c (fun x => k))
  (at level 61, c at next level, right associativity).

(** A [for] loop whose body may raise, collecting with [append]. *)
Fixpoint for_each {A B : Type} (body : A -> result B) (l : list A)
  : result (list B) :=
  match l with
  | [] => Ok []
  | x :: rest =>
      y <- body x ;;
      ys <- for_each body rest ;;
      Ok (y :: ys)
  end.

(** [try: c  except FileNotFoundError: return handler] *)
Definition except_FileNotFoundError {A : Type} (c : result A) (handler : A)
  : result A :=
  match c with
  | Raise FileNotFoundError => Ok handler
  | other => other
  end.

(** [try: v = c  except: v = handler] (a bare [except]) *)
Definition except_any {A : Type} (c : result A) (handler : A) : A :=
  match c with
  | Ok a => a
  | Raise _ => handler
  end.

(** A cell of a row of [csv.DictReader]: a string, or [None] when the
    line is shorter than the header. *)
Definition cell : Type := option string.

(** A row of [csv.DictReader]: field name to cell. *)
Definition row : Type := list (string * cell).

Fixpoint lookup (k : string) (r : row) : option cell :=
  match r with
  | [] => None
  | (k', c) :: rest => if (k' =? k)%string then Some c else lookup k rest
  end.

(** [row[k]] *)
Definition getitem (r : row) (k : string) : result cell :=
  match lookup k r with
  | Some c => Ok c
  | None => Raise KeyError
  end.

(** [row.get(k, dflt)] *)
Definition get (r : row) (k : string) (dflt : cell) : cell :=
  match lookup k r with
  | Some c => c
  | None => dflt
  end.

Definition value_of_cell (c : cell) : value :=
  match c with
  | Some s => VStr s
  | None => VNone
  end.

(** [str(c)] *)
Definition py_str (c : cell) : string :=
  match c with
  | Some s => s
  | None => "None"
  end.

(** [@dataclass Item], fields as loaded *)
Record item : Type := mk_item
  { description : value;
    unit_price : value;
    quantity : value }.

(** [@dataclass Client] *)
Record client : Type := mk_client
  { client_name : value;
    client_address : value;
    client_phone : value;
    client_email : value;
    client_city : value }.

(** [@dataclass StockItem] *)
Record stock_item : Type := mk_stock_item
  { stock_name : value;
    stock_color : value;
    stock_lot_number : value;
    stock_entry_date : value;
    stock_quantity : Z }.

(** [@dataclass Quote] *)
Record quote : Type := mk_quote
  { number : value;
    date : Z * Z * Z;
    quote_client : client;
    items : list item;
    discount_value : Q;
    discount_is_percent : bool;
    place : value;
    status : value;
    materials : value;
    serials : value }.

Section Loaders.
(** The files: [None] for a path with no file, otherwise the rows
    [csv.DictReader] yields. *)
Variable fs : string -> option (list row).
(** [float(s)], [int(s)], [strptime(s, "%Y-%m-%d").date()] and
    [json.loads(s)] on a string; [None] where Python raises
    [ValueError] (for [json.loads]: [JSONDecodeError]). *)
Variable float_of_string : string -> option Q.
Variable int_of_string : string -> option Z.
Variable strptime_ymd : string -> option (Z * Z * Z).
Variable json_loads : string -> option value.

(** [open(path)] and [csv.DictReader(f)] *)
Definition open_csv (path : string) : result (list row) :=
  match fs path with
  | Some rows => Ok rows
  | None => Raise FileNotFoundError
  end.

Definition py_float (c : cell) : result Q :=
  match c with
  | None => Raise TypeError
  | Some s =>
      match float_of_string s with
      | Some q => Ok q
      | None => Raise ValueError
      end
  end.

Definition py_int (c : cell) : result Z :=
  match c with
  | None => Raise TypeError
  | Some s =>
      match int_of_string s with
      | Some z => Ok z
      | None => Raise ValueError
      end
  end.

Definition py_strptime (c : cell) : result (Z * Z * Z) :=
  match c with
  | None => Raise TypeError
  | Some s =>
      match strptime_ymd s with
      | Some d => Ok d
      | None => Raise ValueError
      end
  end.

Definition loads (c : cell) : result value :=
  match c with
  | None => Raise TypeError
  | Some s =>
      match json_loads s with
      | Some v => Ok v
      | None => Raise JSONDecodeError
      end
  end.

(** [def load_catalog(path)] *)
Definition load_catalog (path : string) : result (list item) :=
  except_FileNotFoundError
    (rows <- open_csv path ;;
     for_each
       (fun r =>
          d <- getitem r "description" ;;
          pc <- getitem r "unit_price" ;;
          p <- py_float pc ;;
          qc <- getitem r "quantity" ;;
          q <- py_int qc ;;
          Ok (mk_item (value_of_cell d) (VFloat p) (VInt q)))
       rows)
    [].

(** [def load_clients(path)] *)
Definition load_clients (path : string) : result (list client) :=
  except_FileNotFoundError
    (rows <- open_csv path ;;
     for_each
       (fun r =>
          n <- getitem r "name" ;;
          a <- getitem r "address" ;;
          ph <- getitem r "phone" ;;
          e <- getitem r "email" ;;
          c <- getitem r "city" ;;
          Ok (mk_client (value_of_cell n) (value_of_cell a)
                (value_of_cell ph) (VStr (py_str e)) (value_of_cell c)))
       rows)
    [].

(** Iterating over a loaded JSON value. *)
Definition py_iter (v : value) : result (list value) :=
  match v with
  | VList l => Ok l
  | VDict kvs => Ok (map (fun kv => VStr (fst kv)) kvs)
  | VStr s => Ok (map (fun a => VStr (String a "")) (list_ascii_of_string s))
  | _ => Raise TypeError
  end.

Fixpoint vlookup (k : string) (kvs : list (string * value)) : option value :=
  match kvs with
  | [] => None
  | (k', v) :: rest => if (k' =? k)%string then Some v else vlookup k rest
  end.

(** The constructor [Item] applied to the keyword arguments [it]: a
    mapping with exactly the three field names. *)
Definition item_of_kwargs (it : value) : result item :=
  match it with
  | VDict kvs =>
      if forallb
           (fun kv => existsb (String.eqb (fst kv))
                        ["description"; "unit_price"; "quantity"]) kvs
      then
        match vlookup "description" kvs, vlookup "unit_price" kvs,
              vlookup "quantity" kvs with
        | Some d, Some p, Some q => Ok (mk_item d p q)
        | _, _, _ => Raise TypeError
        end
      else Raise TypeError
  | _ => Raise TypeError
  end.

(** [items]: one [Item] per element of [json.loads(row["items"])] *)
Definition load_items (r : row) : result (list item) :=
  c <- getitem r "items" ;;
  v <- loads c ;;
  its <- py_iter v ;;
  for_each item_of_kwargs its.

(** [client = Client(row["client_name"], ...)] *)
Definition load_client (r : row) : result client :=
  n <- getitem r "client_name" ;;
  a <- getitem r "client_address" ;;
  ph <- getitem r "client_phone" ;;
  e <- getitem r "client_email" ;;
  c <- getitem r "client_city" ;;
  Ok (mk_client (value_of_cell n) (value_of_cell a) (value_of_cell ph)
        (value_of_cell e) (value_of_cell c)).

(** [try: v = json.loads(row.get(column, "[]"))  except: v = []] *)
Definition load_json_column (r : row) (column : string) : value :=
  except_any (loads (get r column (Some "[]"))) (VList []).

(** Body of the loop of [load_quotes]. *)
Definition load_quote_row (r : row) : result quote :=
  its <- load_items r ;;
  cl <- load_client r ;;
  let mats := load_json_column r "materials" in
  let sers := load_json_column r "serials" in
  n <- getitem r "number" ;;
  dc <- getitem r "date" ;;
  d <- py_strptime dc ;;
  dvc <- getitem r "discount_value" ;;
  dv <- py_float dvc ;;
  pc <- getitem r "discount_is_percent" ;;
  pl <- getitem r "place" ;;
  Ok (mk_quote (value_of_cell n) d cl its dv
        (match pc with Some s => (s =? "True")%string | None => false end)
        (value_of_cell pl)
        (value_of_cell (get r "status" (Some "quote")))
        mats sers).

(** [def load_quotes(path)] *)
Definition load_quotes (path : string) : result (list quote) :=
  except_FileNotFoundError
    (rows <- open_csv path ;; for_each load_quote_row rows)
    [].

(** [def load_stock(path)] *)
Definition load_stock (path : string) : result (list stock_item) :=
  except_FileNotFoundError
    (rows <- open_csv path ;;
     for_each
       (fun r =>
          n <- getitem r "name" ;;
          l <- getitem r "lot_number" ;;
          e <- getitem r "entry_date" ;;
          qc <- getitem r "quantity" ;;
          q <- py_int qc ;;
          Ok (mk_stock_item (value_of_cell n)
                (value_of_cell (get r "color" (Some "")))
                (value_of_cell l) (value_of_cell e) q))
       rows)
    [].

(** The column is absent from the row, or holds nothing that
    [json.loads] accepts. *)
Definition missing_or_malformed (r : row) (column : string) : Prop :=
  lookup column r = None
  \/ lookup column r = Some None
  \/ exists s, lookup column r = Some (Some s) /\ json_loads s = None.

(** Every other step of the loop body of [load_quotes] goes through. *)
Definition other_columns_load (r : row) : Prop :=
  exists its cl n d dv pc pl,
    load_items r = Ok its /\ load_client r = Ok cl
    /\ getitem r "number" = Ok n
    /\ (dc <- getitem r "date" ;; py_strptime dc) = Ok d
    /\ (dvc <- getitem r "discount_value" ;; py_float dvc) = Ok dv
    /\ getitem r "discount_is_percent" = Ok pc
    /\ getitem r "place" = Ok pl.
End Loaders.

(** A [json.loads] that knows the empty list only, and parsers that know
    one number and one date: enough to run the loaders on examples. *)
Definition toy_json_loads (s : string) : option value :=
  if (s =? "[]")%string then Some (VList []) else None.
Definition toy_float (s : string) : option Q :=
  if (s =? "10")%string then Some 10%Q else None.
Definition toy_int (s : string) : option Z :=
  if (s =? "1")%string then Some 1 else None.
Definition toy_date (s : string) : option (Z * Z * Z) :=
  if (s =? "2024-01-15")%string then Some (2024, 1, 15) else None.

(** A row as an older version wrote it (no [materials] column), with a
    broken [serials] cell. *)
Definition legacy_row : row :=
  [("number", Some "20240115-001"); ("date", Some "2024-01-15");
   ("client_name", Some "Durand"); ("client_address", Some "1 rue A");
   ("client_phone", Some "0102030405"); ("client_email", Some "d@x.fr");
   ("client_city", Some "Lyon"); ("items", Some "[]");
   ("discount_value", Some "10"); ("discount_is_percent", Some "True");
   ("place", Some "Lyon"); ("status", Some "invoice");
   ("serials", Some "[{")].

End Store.

(** ** Further observations used in the properties *)

(** Reading back what [format_03d] writes: an optional minus sign and
    decimal digits, leading zeros allowed. *)
Definition parse_03d (s : string) : option Z :=
  match NilEmpty.uint_of_string s with
  | Some u => Some (Z.of_N (N.of_uint u))
  | None =>
      match s with
      | String "-" r =>
          option_map (fun u => - Z.of_N (N.of_uint u))
            (NilEmpty.uint_of_string r)
      | _ => None
      end
  end.

(** Everything of a ledger entry but its quantity. *)
Definition identity_of (m : StockItem.t) : string * string * string * string :=
  (StockItem.name m, StockItem.color m, StockItem.lot_number m,
   StockItem.entry_date m).

(** ** Quotes in memory, numbering and saving *)

(** [@dataclass Client] *)
Module Client.
Record t : Type := mk
  { name : string;
    address : string;
    phone : string;
    email : string;
    city : string }.
End Client.

(** [@dataclass Quote]; [materials] and [serials] are [[]] for [None]. *)
Module Quote.
Record t : Type := mk
  { number : string;
    date : Z * Z * Z;
    client : Client.t;
    items : list Item.t;
    discount_value : Q;
    discount_is_percent : bool;
    place : string;
    status : string;
    materials : list Mat.t;
    serials : list Serial.t }.
End Quote.

(** [def next_quote_number()], with [today] the date written [%Y%m%d]:
    [today_quotes = [q for q in QUOTES_DB if q.number.startswith(today)]],
    [return f"{today}-{len(today_quotes)+1:03d}"] *)
Definition today_quotes (today : string) (QUOTES_DB : list Quote.t)
  : list Quote.t :=
  filter (fun q => String.prefix today (Quote.number q)) QUOTES_DB.

Definition next_quote_number (today : string) (QUOTES_DB : list Quote.t)
  : string :=
  generate_serial today (Z.of_nat (List.length (today_quotes today QUOTES_DB)) + 1).

(** [l.remove(x)] for the [x] that [next((q for q in l if p(q)), None)]
    returned: the first element that is [x] or equal to [x] is [x] itself,
    the first element satisfying [p]. *)
Fixpoint remove_first {A : Type} (p : A -> bool) (l : list A) : list A :=
  match l with
  | [] => []
  | x :: rest => if p x then rest else x :: remove_first p rest
  end.

(** The save button of the quote tab:
    [existing = next((q for q in QUOTES_DB if q.number == quote_no), None)],
    [if existing: QUOTES_DB.remove(existing)], [QUOTES_DB.append(new_quote)]. *)
Definition save_quote (QUOTES_DB : list Quote.t) (new_quote : Quote.t)
  : list Quote.t :=
  let has_number := fun q => (Quote.number q =? Quote.number new_quote)%string in
  match next has_number QUOTES_DB with
  | Some _ => remove_first has_number QUOTES_DB ++ [new_quote]
  | None => QUOTES_DB ++ [new_quote]
  end.

(** The numbers of today's quotes are the first [n] numbers of the day. *)
Definition numbered_in_sequence (today : string) (QUOTES_DB : list Quote.t)
  : Prop :=
  forall q, In q (today_quotes today QUOTES_DB) ->
    exists k, (1 <= k <= List.length (today_quotes today QUOTES_DB))%nat
              /\ Quote.number q = generate_serial today (Z.of_nat k).

(** The "total" column of the lists of quotes and of invoices:
    [sum(...) - (sum(...) * (q.discount_value/100 if q.discount_is_percent else 0))] *)
Definition list_total (q : Quote.t) : Q :=
  (py_sum (map line_total (Quote.items q))
   - py_sum (map line_total (Quote.items q))
     * (if Quote.discount_is_percent q
        then Quote.discount_value q / 100 else 0))%Q.

(** A quote with a given number, used in examples. *)
Definition sample_quote (number : string) : Quote.t :=
  Quote.mk number (2024, 1, 15)
    (Client.mk "Durand" "1 rue A" "0102030405" "d@x.fr" "Lyon")
    [Item.mk "Sac" 10 2] 0 true "Lyon" "quote" [] [].

(** ** The company loader, the savers and the rows they write *)

Module Persist.
Import Store.

(** How a call ends: [load_company] can let [StopIteration] escape. *)
Inductive outcome (A : Type) : Type :=
| Returned (a : A)
| Raised (e : exn)
| RaisedStopIteration.
Arguments Returned {A} a.
Arguments Raised {A} e.
Arguments RaisedStopIteration {A}.

(** The dictionary [load_company] returns. *)
Record company : Type := mk_company
  { name : value;
    siret : value;
    address : value;
    rm : value;
    phone : value;
    email : value }.

(** [def load_company(path)]: the first row of the file, read with
    [row.get(key, "")]; only [FileNotFoundError] is handled. *)
Definition load_company (fs : string -> option (list row)) (path : string)
  : outcome company :=
  match fs path with
  | None =>
      Returned (mk_company (VStr "") (VStr "") (VStr "") (VStr "") (VStr "")
                  (VStr ""))
  | Some [] => RaisedStopIteration
  | Some (r :: _) =>
      Returned
        (mk_company (value_of_cell (get r "name" (Some "")))
           (value_of_cell (get r "siret" (Some "")))
           (value_of_cell (get r "address" (Some "")))
           (value_of_cell (get r "rm" (Some "")))
           (value_of_cell (get r "phone" (Some "")))
           (value_of_cell (get r "email" (Some ""))))
  end.

(** [str(z)] for an [int] *)
Definition py_str_int (z : Z) : string :=
  ((if (z <? 0)%Z then "-" else "")
   ++ NilEmpty.string_of_uint (N.to_uint (Z.abs_N z)))%string.

(** [bool(v)] *)
Definition truthy (v : value) : bool :=
  match v with
  | VNone => false
  | VBool b => b
  | VInt z => negb (z =? 0)
  | VFloat q => negb (Qeq_bool q 0)
  | VStr s => negb (s =? "")%string
  | VList l => negb (Nat.eqb (List.length l) 0)
  | VDict kvs => negb (Nat.eqb (List.length kvs) 0)
  end.

(** Writing a file with [csv.DictWriter] (header, then the rows) and
    reading it with [csv.DictReader] gives the rows back: the files are
    kept as the rows they hold. *)
Definition write_csv (fs : string -> option (list row)) (path : string)
    (rows : list row) : string -> option (list row) :=
  fun p => if (p =? path)%string then Some rows else fs p.

Section Savers.
(** [str(v)] for the values that are neither [None] nor a string, the
    text of a float, of a date ([isoformat]) and of a JSON document
    ([json.dumps]). *)
Variable py_str_value : value -> string.
Variable py_str_float : Q -> string.
Variable isoformat : Z * Z * Z -> string.
Variable json_dumps : value -> string.

(** What [csv] writes for a field: nothing for [None], a string as it is,
    [str(v)] otherwise. *)
Definition csv_field (v : value) : string :=
  match v with
  | VNone => ""
  | VStr s => s
  | other => py_str_value other
  end.

(** The dictionary [save_stock] writes for one entry. *)
Definition stock_row (s : stock_item) : row :=
  [("name", Some (csv_field (stock_name s)));
   ("color", Some (csv_field (stock_color s)));
   ("lot_number", Some (csv_field (stock_lot_number s)));
   ("entry_date", Some (csv_field (stock_entry_date s)));
   ("quantity", Some (py_str_int (stock_quantity s)))].

(** [def save_stock(stock, path)] *)
Definition save_stock (stock : list stock_item)
    (fs : string -> option (list row)) (path : string)
  : string -> option (list row) :=
  write_csv fs path (map stock_row stock).

(** [vars(it)] *)
Definition vars_of_item (it : item) : value :=
  VDict [("description", description it); ("unit_price", unit_price it);
         ("quantity", quantity it)].

(** [json.dumps(v) if v else "[]"] *)
Definition dumps_or_empty (v : value) : string :=
  if truthy v then json_dumps v else "[]".

(** The dictionary [save_quotes] writes for one quote. *)
Definition quote_row (q : quote) : row :=
  [("number", Some (csv_field (number q)));
   ("date", Some (isoformat (date q)));
   ("client_name", Some (csv_field (client_name (quote_client q))));
   ("client_address", Some (csv_field (client_address (quote_client q))));
   ("client_phone", Some (csv_field (client_phone (quote_client q))));
   ("client_email", Some (csv_field (client_email (quote_client q))));
   ("client_city", Some (csv_field (client_city (quote_client q))));
   ("items", Some (json_dumps (VList (map vars_of_item (items q)))));
   ("discount_value", Some (py_str_float (discount_value q)));
   ("discount_is_percent",
    Some (if discount_is_percent q then "True" else "False"));
   ("place", Some (csv_field (place q)));
   ("status", Some (csv_field (status q)));
   ("materials", Some (dumps_or_empty (materials q)));
   ("serials", Some (dumps_or_empty (serials q)))].

(** [def save_quotes(quotes, path)] *)
Definition save_quotes (quotes : list quote)
    (fs : string -> option (list row)) (path : string)
  : string -> option (list row) :=
  write_csv fs path (map quote_row quotes).

(** A field as it comes back from a file: always a string. *)
Definition as_read (v : value) : value := VStr (csv_field v).

Definition stock_as_read (s : stock_item) : stock_item :=
  mk_stock_item (as_read (stock_name s)) (as_read (stock_color s))
    (as_read (stock_lot_number s)) (as_read (stock_entry_date s))
    (stock_quantity s).

Definition client_as_read (c : client) : client :=
  mk_client (as_read (client_name c)) (as_read (client_address c))
    (as_read (client_phone c)) (as_read (client_email c))
    (as_read (client_city c)).

(** An empty or missing list comes back as the empty list. *)
Definition list_as_read (v : value) : value :=
  if truthy v then v else VList [].

Definition quote_as_read (q : quote) : quote :=
  mk_quote (as_read (number q)) (date q) (client_as_read (quote_client q))
    (items q) (discount_value q) (discount_is_percent q)
    (as_read (place q)) (as_read (status q))
    (list_as_read (materials q)) (list_as_read (serials q)).
End Savers.

(** The body of the loop of [load_stock], named. *)
Definition load_stock_row (int_of_string : string -> option Z) (r : row)
  : result stock_item :=
  n <- getitem r "name" ;;
  l <- getitem r "lot_number" ;;
  e <- getitem r "entry_date" ;;
  qc <- getitem r "quantity" ;;
  q <- py_int int_of_string qc ;;
  Ok (mk_stock_item (value_of_cell n)
        (value_of_cell (get r "color" (Some "")))
        (value_of_cell l) (value_of_cell e) q).

End Persist.

(** The texts [save_quotes] writes for the date, the discount value, the
    items and the non-empty materials and serials of a quote are read back
    by the parsers to what was written. *)
Definition quote_reads_back
    (float_of_string : string -> option Q)
    (strptime_ymd : string -> option (Z * Z * Z))
    (json_loads : string -> option Store.value)
    (py_str_float : Q -> string) (isoformat : Z * Z * Z -> string)
    (json_dumps : Store.value -> string) (q : Store.quote) : Prop :=
  float_of_string (py_str_float (Store.discount_value q))
    = Some (Store.discount_value q)
  /\ strptime_ymd (isoformat (Store.date q)) = Some (Store.date q)
  /\ json_loads
       (json_dumps (Store.VList (map Persist.vars_of_item (Store.items q))))
     = Some (Store.VList (map Persist.vars_of_item (Store.items q)))
  /\ (Persist.truthy (Store.materials q) = true ->
      json_loads (json_dumps (Store.materials q)) = Some (Store.materials q))
  /\ (Persist.truthy (Store.serials q) = true ->
      json_loads (json_dumps (Store.serials q)) = Some (Store.serials q)).

(** A quote as the quote tab creates it, in the loaders' representation,
    and printers that go with the toy parsers. *)
Definition stored_sample_quote : Store.quote :=
  Store.mk_quote (Store.VStr "20240115-001") (2024, 1, 15)
    (Store.mk_client (Store.VStr "Durand") (Store.VStr "1 rue A")
       (Store.VStr "0102030405") (Store.VStr "d@x.fr") (Store.VStr "Lyon"))
    [] 10 true (Store.VStr "Lyon") (Store.VStr "quote")
    Store.VNone Store.VNone.

Definition stored_sample_stock : Store.stock_item :=
  Store.mk_stock_item (Store.VStr "Cuir") Store.VNone (Store.VStr "L1")
    (Store.VStr "2024-01-15") 8.

(** A computation that does not end in [FileNotFoundError]. *)
Definition never_file_not_found {A : Type} (c : Store.result A) : Prop :=
  c <> Store.Raise Store.FileNotFoundError.

(* ================================================================== *)
(** * Part II: properties *)
(* ================================================================== *)

(** ** Ledger updates *)

Lemma update_stock_ext lot f g db :
  (forall q, f q = g q) -> update_stock lot f db = update_stock lot g db.
Proof.
  intros Hfg. induction db as [|m rest IH]; simpl; [reflexivity|].
  destruct (StockItem.lot_number m =? lot)%string.
  - now rewrite Hfg.
  - now rewrite IH.
Qed.

Lemma update_stock_absent lot f db :
  find_stock db lot = None -> update_stock lot f db = db.
Proof.
  unfold find_stock, next. induction db as [|m rest IH]; simpl; [reflexivity|].
  destruct (StockItem.lot_number m =? lot)%string; [discriminate|].
  intros H. now rewrite IH.
Qed.

Lemma update_stock_lots lot f db :
  lots_of (update_stock lot f db) = lots_of db.
Proof.
  unfold lots_of. induction db as [|m rest IH]; simpl; [reflexivity|].
  destruct (StockItem.lot_number m =? lot)%string; simpl; [reflexivity|].
  now rewrite IH.
Qed.

Lemma qty_of_update_stock lot f db l :
  qty_of (update_stock lot f db) l =
  if (lot =? l)%string then option_map f (qty_of db l) else qty_of db l.
Proof.
  unfold qty_of, find_stock, next.
  induction db as [|m rest IH]; simpl.
  - now destruct (lot =? l)%string.
  - destruct (StockItem.lot_number m =? lot)%string eqn:Hm; simpl.
    + apply String.eqb_eq in Hm. rewrite Hm.
      destruct (lot =? l)%string; reflexivity.
    + destruct (StockItem.lot_number m =? l)%string eqn:Hl; simpl.
      * destruct (lot =? l)%string eqn:Hll; [|reflexivity].
        apply String.eqb_eq in Hl, Hll. subst.
        rewrite String.eqb_refl in Hm. discriminate.
      * exact IH.
Qed.

Lemma qty_of_cons m rest l :
  qty_of (m :: rest) l =
  if (StockItem.lot_number m =? l)%string then Some (StockItem.quantity m)
  else qty_of rest l.
Proof.
  unfold qty_of, find_stock, next; simpl.
  now destruct (StockItem.lot_number m =? l)%string.
Qed.

Lemma consume_mat_delta old_entry db mat :
  consume_mat old_entry db mat =
  apply_delta db
    (Mat.lot mat, old_qty_of old_entry (Mat.lot mat) 0 - Mat.qty mat).
Proof.
  unfold consume_mat, apply_delta; simpl.
  destruct (find_stock db (Mat.lot mat)) eqn:Hf.
  - apply update_stock_ext. intros q. lia.
  - symmetry. now apply update_stock_absent.
Qed.

Lemma credit_mat_delta db om :
  credit_mat db om = apply_delta db (Mat.lot om, Mat.qty om).
Proof.
  unfold credit_mat, apply_delta; simpl.
  destruct (find_stock db (Mat.lot om)) eqn:Hf; [reflexivity|].
  symmetry. now apply update_stock_absent.
Qed.

(** ** The loops as delta lists *)

Lemma apply_deltas_app ops1 ops2 db :
  apply_deltas (ops1 ++ ops2) db = apply_deltas ops2 (apply_deltas ops1 db).
Proof. unfold apply_deltas. apply fold_left_app. Qed.

Lemma fold_consume_mat old_entry mats db :
  fold_left (consume_mat old_entry) mats db =
  apply_deltas
    (map (fun mat =>
            (Mat.lot mat, old_qty_of old_entry (Mat.lot mat) 0 - Mat.qty mat))
       mats) db.
Proof.
  revert db. induction mats as [|mat mats IH]; intros db; simpl; [reflexivity|].
  now rewrite IH, consume_mat_delta.
Qed.

Lemma consumption_pass_deltas old new db :
  consumption_pass old new db = apply_deltas (consumption_deltas old new) db.
Proof.
  unfold consumption_pass, consumption_deltas.
  revert db. induction new as [|ns new IH]; intros db; simpl; [reflexivity|].
  rewrite apply_deltas_app, IH. unfold consume_serial.
  now rewrite fold_consume_mat.
Qed.

Lemma fold_credit_mat mats db :
  fold_left credit_mat mats db =
  apply_deltas (map (fun om => (Mat.lot om, Mat.qty om)) mats) db.
Proof.
  revert db. induction mats as [|om mats IH]; intros db; simpl; [reflexivity|].
  now rewrite IH, credit_mat_delta.
Qed.

Lemma fold_credit_unused sp mats db :
  fold_left
    (fun db om =>
       if negb (still_used sp (Mat.lot om)) then credit_mat db om else db)
    mats db =
  apply_deltas
    (map (fun om => (Mat.lot om, Mat.qty om))
       (filter (fun om => negb (still_used sp (Mat.lot om))) mats)) db.
Proof.
  revert db. induction mats as [|om mats IH]; intros db; simpl; [reflexivity|].
  rewrite IH. destruct (negb (still_used sp (Mat.lot om))); simpl.
  - now rewrite credit_mat_delta.
  - reflexivity.
Qed.

Lemma recredit_pass_deltas old new db :
  recredit_pass old new db = apply_deltas (recredit_deltas old new) db.
Proof.
  unfold recredit_pass, recredit_deltas.
  revert db. induction old as [|o old IH]; intros db; simpl; [reflexivity|].
  rewrite apply_deltas_app, IH. unfold recredit_serial.
  destruct (find_serial new (Serial.serial o)).
  - now rewrite fold_credit_unused.
  - now rewrite fold_credit_mat.
Qed.

Lemma reconcile_deltas old new db :
  reconcile old new db =
  apply_deltas (consumption_deltas old new ++ recredit_deltas old new) db.
Proof.
  unfold reconcile.
  now rewrite apply_deltas_app, consumption_pass_deltas, recredit_pass_deltas.
Qed.

(** ** What a delta list does to a ledger *)

Lemma sumZ_app l1 l2 : sumZ (l1 ++ l2) = sumZ l1 + sumZ l2.
Proof. unfold sumZ. induction l1; simpl; lia. Qed.

Lemma net_app ops1 ops2 l : net (ops1 ++ ops2) l = net ops1 l + net ops2 l.
Proof. unfold net. now rewrite filter_app, map_app, sumZ_app. Qed.

Lemma net_cons op ops l :
  net (op :: ops) l = (if (fst op =? l)%string then snd op else 0) + net ops l.
Proof.
  unfold net; simpl. destruct (fst op =? l)%string; simpl; lia.
Qed.

Lemma apply_deltas_lots ops db : lots_of (apply_deltas ops db) = lots_of db.
Proof.
  unfold apply_deltas. revert db.
  induction ops as [|op ops IH]; intros db; simpl; [reflexivity|].
  rewrite IH. apply update_stock_lots.
Qed.

Lemma option_map_add (o : option Z) a b :
  option_map (fun q => q + b) (option_map (fun q => q + a) o) =
  option_map (fun q => q + (a + b)) o.
Proof. destruct o; simpl; [f_equal; lia | reflexivity]. Qed.

Lemma option_map_add0 (o : option Z) : option_map (fun q => q + 0) o = o.
Proof. destruct o; simpl; [f_equal; lia | reflexivity]. Qed.

Lemma qty_of_apply_deltas ops db l :
  qty_of (apply_deltas ops db) l =
  option_map (fun q => q + net ops l) (qty_of db l).
Proof.
  unfold apply_deltas. revert db.
  induction ops as [|op ops IH]; intros db; simpl.
  - unfold net; simpl. now rewrite option_map_add0.
  - rewrite IH, net_cons. unfold apply_delta.
    rewrite qty_of_update_stock.
    destruct (fst op =? l)%string.
    + now rewrite option_map_add.
    + now rewrite Z.add_0_l.
Qed.

(** On a ledger [m :: rest] the head receives every delta aimed at its lot
    number, and the tail only the others. *)
Lemma apply_deltas_cons ops m rest :
  apply_deltas ops (m :: rest) =
  StockItem.mk (StockItem.name m) (StockItem.color m) (StockItem.lot_number m)
    (StockItem.entry_date m)
    (StockItem.quantity m + net ops (StockItem.lot_number m))
  :: apply_deltas
       (filter (fun op => negb (fst op =? StockItem.lot_number m)%string) ops)
       rest.
Proof.
  unfold apply_deltas. revert m rest.
  induction ops as [|op ops IH]; intros m rest; simpl.
  - unfold net; simpl. destruct m; simpl. f_equal. f_equal. lia.
  - rewrite net_cons. rewrite (String.eqb_sym (fst op)).
    unfold apply_delta at 2; simpl.
    destruct (StockItem.lot_number m =? fst op)%string eqn:E; simpl.
    + rewrite IH; simpl. f_equal. f_equal. lia.
    + rewrite IH; simpl. reflexivity.
Qed.

Lemma net_filter_other ops l l' :
  (l' =? l)%string = false ->
  net (filter (fun op => negb (fst op =? l')%string) ops) l = net ops l.
Proof.
  intros Hne. induction ops as [|op ops IH]; simpl; [reflexivity|].
  rewrite net_cons.
  destruct (fst op =? l')%string eqn:E1; simpl.
  - apply String.eqb_eq in E1. rewrite E1, Hne. now rewrite IH.
  - rewrite net_cons, IH. reflexivity.
Qed.

(** A ledger stays non-negative under a delta list as soon as every lot
    that a lookup reaches can absorb the net delta aimed at it. *)
Lemma apply_deltas_non_negative ops db :
  non_negative db ->
  (forall l q, qty_of db l = Some q -> 0 <= q + net ops l) ->
  non_negative (apply_deltas ops db).
Proof.
  unfold non_negative. revert ops.
  induction db as [|m rest IH]; intros ops Hnn Hroom.
  - replace (apply_deltas ops []) with (@nil StockItem.t); [constructor|].
    unfold apply_deltas. clear. induction ops; simpl; auto.
  - rewrite apply_deltas_cons. inversion Hnn as [|? ? Hm Hrest]; subst.
    constructor; simpl.
    + apply Hroom. unfold qty_of, find_stock, next; simpl.
      now rewrite String.eqb_refl.
    + apply IH; [assumption|]. intros l q Hq.
      destruct (StockItem.lot_number m =? l)%string eqn:E.
      * (* a lot shadowed by the head receives nothing *)
        apply String.eqb_eq in E. subst l.
        assert (Hz : net (filter (fun op =>
                       negb (fst op =? StockItem.lot_number m)%string) ops)
                       (StockItem.lot_number m) = 0).
        { clear. induction ops as [|op ops IHo]; simpl; [reflexivity|].
          destruct (fst op =? StockItem.lot_number m)%string eqn:E; simpl;
            [exact IHo|].
          rewrite net_cons, E, IHo. reflexivity. }
        rewrite Hz.
        assert (Hin : exists x, In x rest /\ StockItem.quantity x = q).
        { unfold qty_of, find_stock, next in Hq.
          destruct (find _ rest) eqn:Hf; [|discriminate].
          apply find_some in Hf. injection Hq as <-.
          exists t. tauto. }
        destruct Hin as [x [Hx <-]].
        rewrite Forall_forall in Hrest. specialize (Hrest x Hx). lia.
      * rewrite net_filter_other by assumption.
        apply Hroom. unfold qty_of, find_stock, next; simpl. now rewrite E.
Qed.

(** ** Sums over two lists matched by a key

    When keys are unique on both sides, summing over the matched pairs
    from either side gives the same total. *)

Section MatchedSums.
Variables (A B : Type) (keyA : A -> string) (keyB : B -> string).
Variable phi : A -> B -> Z.

Local Abbreviation matched_from_left := (matched_from_left keyA keyB phi).
Local Abbreviation matched_from_right := (matched_from_right keyA keyB phi).

Lemma next_absent (k : string) (ys : list B) :
  ~ In k (map keyB ys) -> next (fun y => keyB y =? k)%string ys = None.
Proof.
  unfold next. induction ys as [|y ys IH]; simpl; intros Hk; [reflexivity|].
  destruct (keyB y =? k)%string eqn:E.
  - apply String.eqb_eq in E. tauto.
  - apply IH. tauto.
Qed.

Lemma sum_split_on_key (x : A) (g : B -> Z) (ys : list B) :
  NoDup (map keyB ys) ->
  sumZ (map (fun y => if (keyA x =? keyB y)%string then phi x y else g y) ys)
  = match next (fun y => keyB y =? keyA x)%string ys with
    | Some y => phi x y - g y
    | None => 0
    end + sumZ (map g ys).
Proof.
  unfold next. induction ys as [|y ys IH]; simpl; intros Hnd; [reflexivity|].
  inversion Hnd as [|? ? Hnotin Hnd']; subst.
  rewrite (String.eqb_sym (keyB y)).
  destruct (keyA x =? keyB y)%string eqn:E.
  - apply String.eqb_eq in E.
    assert (Hrest : map (fun y0 =>
               if (keyA x =? keyB y0)%string then phi x y0 else g y0) ys
             = map g ys).
    { apply map_ext_in. intros y0 Hy0.
      destruct (keyA x =? keyB y0)%string eqn:E0; [|reflexivity].
      apply String.eqb_eq in E0. exfalso. apply Hnotin.
      rewrite <- E, E0. now apply in_map. }
    rewrite Hrest. lia.
  - rewrite (IH Hnd'). lia.
Qed.

Lemma matched_sums_agree (xs : list A) (ys : list B) :
  NoDup (map keyA xs) -> NoDup (map keyB ys) ->
  matched_from_left xs ys = matched_from_right xs ys.
Proof.
  intros Hxs Hys. unfold matched_from_left, matched_from_right.
  induction xs as [|x xs IH]; simpl.
  - clear. unfold next, sumZ. induction ys; simpl; auto.
  - inversion Hxs as [|? ? Hnotin Hxs']; subst.
    rewrite (IH Hxs').
    set (g := fun y => match next (fun x0 => (keyA x0 =? keyB y)%string) xs
                       with Some x0 => phi x0 y | None => 0 end).
    rewrite (map_ext
      (fun y => match next (fun x0 => (keyA x0 =? keyB y)%string) (x :: xs)
                with Some x0 => phi x0 y | None => 0 end)
      (fun y => if (keyA x =? keyB y)%string then phi x y else g y)).
    2:{ intros y. unfold g, next; simpl.
        now destruct (keyA x =? keyB y)%string. }
    rewrite sum_split_on_key by assumption.
    destruct (next (fun y => (keyB y =? keyA x)%string) ys) as [y|] eqn:Hy;
      [|lia].
    unfold next in Hy. apply find_some in Hy. destruct Hy as [_ Hk].
    apply String.eqb_eq in Hk.
    assert (Hnone : g y = 0).
    { unfold g. rewrite Hk. clear - Hnotin. unfold next.
      induction xs as [|x0 xs IHx]; simpl; [reflexivity|].
      destruct (keyA x0 =? keyA x)%string eqn:E.
      - apply String.eqb_eq in E. simpl in Hnotin. tauto.
      - apply IHx. simpl in Hnotin. tauto. }
    rewrite Hnone. lia.
Qed.
End MatchedSums.

(** ** Net effect of each pass on one lot *)

Lemma net_flat_map {A : Type} (f : A -> list (string * Z)) xs l :
  net (flat_map f xs) l = sumZ (map (fun x => net (f x) l) xs).
Proof.
  induction xs as [|x xs IH]; simpl; [reflexivity|].
  now rewrite net_app, IH.
Qed.

Lemma filter_lot_absent mats l :
  ~ In l (map Mat.lot mats) ->
  filter (fun m => Mat.lot m =? l)%string mats = [].
Proof.
  induction mats as [|m mats IH]; simpl; intros Hl; [reflexivity|].
  destruct (Mat.lot m =? l)%string eqn:E.
  - apply String.eqb_eq in E. tauto.
  - apply IH. tauto.
Qed.

Lemma existsb_lot_absent mats l :
  ~ In l (map Mat.lot mats) ->
  existsb (fun m => Mat.lot m =? l)%string mats = false.
Proof.
  induction mats as [|m mats IH]; simpl; intros Hl; [reflexivity|].
  destruct (Mat.lot m =? l)%string eqn:E; simpl.
  - apply String.eqb_eq in E. tauto.
  - apply IH. tauto.
Qed.

(** With one entry per lot, the quantity found first is the whole quantity
    the binding records for the lot. *)
Lemma lot_total_unique oe l :
  unique_lots oe -> old_qty_of (Some oe) l 0 = lot_total oe l.
Proof.
  unfold unique_lots, lot_total, old_qty_of, next.
  induction (Serial.materials oe) as [|m mats IH]; simpl; intros Hnd;
    [reflexivity|].
  inversion Hnd as [|? ? Hnotin Hnd']; subst.
  destruct (Mat.lot m =? l)%string eqn:E; simpl.
  - apply String.eqb_eq in E. subst l.
    rewrite filter_lot_absent by assumption. simpl. lia.
  - now apply IH.
Qed.

Lemma net_consume_one (g : string -> Z) mats l :
  NoDup (map Mat.lot mats) ->
  net (map (fun mat => (Mat.lot mat, g (Mat.lot mat) - Mat.qty mat)) mats) l =
  (if existsb (fun m => Mat.lot m =? l)%string mats then g l else 0)
  - sumZ (map Mat.qty (filter (fun m => Mat.lot m =? l)%string mats)).
Proof.
  induction mats as [|m mats IH]; simpl; intros Hnd; [reflexivity|].
  inversion Hnd as [|? ? Hnotin Hnd']; subst.
  rewrite net_cons; simpl. rewrite (IH Hnd').
  destruct (Mat.lot m =? l)%string eqn:E; simpl.
  - apply String.eqb_eq in E. subst l.
    rewrite existsb_lot_absent, filter_lot_absent by assumption. simpl. lia.
  - lia.
Qed.

Lemma net_credit_filter (p : string -> bool) mats l :
  net (map (fun om => (Mat.lot om, Mat.qty om))
         (filter (fun om => p (Mat.lot om)) mats)) l =
  if p l
  then sumZ (map Mat.qty (filter (fun m => Mat.lot m =? l)%string mats))
  else 0.
Proof.
  induction mats as [|m mats IH]; simpl.
  - now destruct (p l).
  - destruct (p (Mat.lot m)) eqn:Hp; simpl.
    + rewrite net_cons; simpl. rewrite IH.
      destruct (Mat.lot m =? l)%string eqn:E; simpl.
      * apply String.eqb_eq in E. subst l. rewrite Hp. reflexivity.
      * destruct (p l); reflexivity.
    + rewrite IH. destruct (Mat.lot m =? l)%string eqn:E; simpl.
      * apply String.eqb_eq in E. subst l. rewrite Hp. reflexivity.
      * reflexivity.
Qed.

Lemma net_credit_all mats l :
  net (map (fun om => (Mat.lot om, Mat.qty om)) mats) l =
  sumZ (map Mat.qty (filter (fun m => Mat.lot m =? l)%string mats)).
Proof.
  induction mats as [|m mats IH]; simpl; [reflexivity|].
  rewrite net_cons; simpl. rewrite IH.
  destruct (Mat.lot m =? l)%string; simpl; lia.
Qed.

Lemma sumZ_map_sub {A : Type} (f g : A -> Z) xs :
  sumZ (map (fun x => f x - g x) xs) = sumZ (map f xs) - sumZ (map g xs).
Proof. unfold sumZ. induction xs; simpl; lia. Qed.

Lemma net_consumption old new l :
  Forall unique_lots old -> Forall unique_lots new ->
  net (consumption_deltas old new) l =
  matched_from_left Serial.serial Serial.serial (kept l) new old
  - bound_total new l.
Proof.
  intros Hold Hnew. unfold consumption_deltas, matched_from_left, bound_total.
  rewrite net_flat_map, <- sumZ_map_sub. f_equal.
  apply map_ext_in. intros ns Hns.
  rewrite Forall_forall in Hold, Hnew.
  rewrite (net_consume_one
             (fun lot => old_qty_of (find_serial old (Serial.serial ns)) lot 0))
    by (apply Hnew; assumption).
  fold (still_used ns l). fold (lot_total ns l). unfold find_serial.
  destruct (next (fun s => (Serial.serial s =? Serial.serial ns)%string) old)
    as [oe|] eqn:Hf.
  - unfold next in Hf. apply find_some in Hf. destruct Hf as [Hin _].
    rewrite (lot_total_unique oe l (Hold oe Hin)). reflexivity.
  - simpl. now destruct (still_used ns l).
Qed.

Lemma net_recredit old new l :
  net (recredit_deltas old new) l =
  bound_total old l
  - matched_from_right Serial.serial Serial.serial (kept l) new old.
Proof.
  unfold recredit_deltas, matched_from_right, bound_total.
  rewrite net_flat_map, <- sumZ_map_sub. f_equal.
  apply map_ext. intros o. unfold find_serial.
  destruct (next (fun s => (Serial.serial s =? Serial.serial o)%string) new)
    as [sp|].
  - rewrite (net_credit_filter (fun lot => negb (still_used sp lot))).
    unfold kept. fold (lot_total o l). destruct (still_used sp l); simpl; lia.
  - rewrite net_credit_all. fold (lot_total o l). lia.
Qed.

(** Net effect of a save on one lot, for well-formed bindings: what the old
    bindings held comes back, what the new bindings hold goes out. *)
Lemma net_reconcile old new l :
  well_formed old -> well_formed new ->
  net (consumption_deltas old new ++ recredit_deltas old new) l =
  bound_total old l - bound_total new l.
Proof.
  intros [Hso Hlo] [Hsn Hln].
  rewrite net_app, net_consumption, net_recredit by assumption.
  rewrite (matched_sums_agree _ _ Serial.serial Serial.serial (kept l) new old)
    by assumption.
  lia.
Qed.

(** ** Reconciliation: scenarios of the specification *)

(** One unit bound to lot L1 for 2; the edit removes the binding: L1 goes
    back from 8 to 10. *)
Example scenario_binding_removed :
  reconcile [binding "X-001" [("L1", 2)]] [binding "X-001" []]
    [lot_entry "L1" 8]
  = [lot_entry "L1" 10].
Proof. reflexivity. Qed.

(** Quantity changed from 2 to 5: L1 decreases by exactly 3. *)
Example scenario_quantity_changed :
  reconcile [binding "X-001" [("L1", 2)]] [binding "X-001" [("L1", 5)]]
    [lot_entry "L1" 8]
  = [lot_entry "L1" 5].
Proof. reflexivity. Qed.

(** The invoice shrinks from two units to one; serial X-002 held 3 of lot
    L2, which is credited back. *)
Example scenario_serial_dropped :
  reconcile
    [binding "X-001" [("L1", 2)]; binding "X-002" [("L2", 3)]]
    [binding "X-001" [("L1", 2)]]
    [lot_entry "L1" 8; lot_entry "L2" 7]
  = [lot_entry "L1" 8; lot_entry "L2" 10].
Proof. reflexivity. Qed.

(** ** C1: no floor on ledger quantities *)

(** C1, as stated, fails: a new serial that takes 3 of a lot holding 2
    (the quantity widget allows up to the quantity on hand plus one for a
    lot not bound before) leaves the lot at -1. *)
Lemma reconcile_can_go_negative :
  ~ (forall old new db,
        non_negative db -> non_negative (reconcile old new db)).
Proof.
  intros H.
  specialize (H [] [binding "X-001" [("L1", 3)]] [lot_entry "L1" 2]).
  assert (Hnn : non_negative [lot_entry "L1" 2]).
  { repeat constructor. simpl. lia. }
  specialize (H Hnn). inversion H as [|? ? Hq _]; subst.
  simpl in Hq. lia.
Qed.

(** C1 (amended): for well-formed bindings (serials unique in each list,
    one entry per lot in each binding) and a ledger with non-negative
    quantities, reconciliation leaves every quantity non-negative provided
    that, for every lot of the ledger, what the new bindings take does not
    exceed the quantity on hand plus what the old bindings held.  The
    passes themselves check nothing. *)
Theorem reconcile_non_negative old new db :
  well_formed old -> well_formed new ->
  non_negative db ->
  (forall l q, qty_of db l = Some q ->
               bound_total new l <= q + bound_total old l) ->
  non_negative (reconcile old new db).
Proof.
  intros Hold Hnew Hnn Hroom.
  rewrite reconcile_deltas. apply apply_deltas_non_negative; [assumption|].
  intros l q Hq. rewrite net_reconcile by assumption.
  specialize (Hroom l q Hq). lia.
Qed.

Ltac nodup_strings :=
  repeat constructor; simpl; intuition discriminate.

Lemma reconcile_non_negative_witness :
  non_negative
    (reconcile [binding "X-001" [("L1", 2)]] [binding "X-001" [("L1", 5)]]
       [lot_entry "L1" 8]).
Proof.
  apply reconcile_non_negative.
  - split; [nodup_strings | repeat constructor; nodup_strings].
  - split; [nodup_strings | repeat constructor; nodup_strings].
  - repeat constructor. simpl. lia.
  - intros l q. rewrite qty_of_cons.
    change (StockItem.lot_number (lot_entry "L1" 8)) with "L1".
    destruct ("L1" =? l)%string eqn:E; intros Hq; [|discriminate].
    apply String.eqb_eq in E. subst l. injection Hq as <-.
    vm_compute. discriminate.
Defined.

(** ** C2: conservation *)

(** C2, as stated, fails when a serial occurs twice in the old list: only
    the first old entry is compared with the new one, and the second is
    neither recredited (its serial is still present and still uses the
    lot) nor compared.  The ledger keeps 10 where the claim gives
    10 - 2 + (2 + 3). *)
Lemma conservation_needs_unique_serials :
  ~ (forall old new db,
        Forall unique_lots old -> Forall unique_lots new ->
        lots_exist db old -> lots_exist db new ->
        forall l q, qty_of db l = Some q ->
          qty_of (reconcile old new db) l =
          Some (q - bound_total new l + bound_total old l)).
Proof.
  intros H.
  specialize (H [binding "X-001" [("L1", 2)]; binding "X-001" [("L1", 3)]]
                [binding "X-001" [("L1", 2)]]
                [lot_entry "L1" 10]).
  assert (Hex : forall serials,
             Forall (fun s => Forall (fun m => Mat.lot m = "L1")
                                (Serial.materials s)) serials ->
             lots_exist [lot_entry "L1" 10] serials).
  { intros serials Hall s m Hs Hm. rewrite Forall_forall in Hall.
    specialize (Hall s Hs). rewrite Forall_forall in Hall.
    rewrite (Hall m Hm). reflexivity. }
  specialize (H ltac:(repeat constructor; nodup_strings)
                ltac:(repeat constructor; nodup_strings)
                ltac:(apply Hex; repeat constructor)
                ltac:(apply Hex; repeat constructor)
                "L1" 10 eq_refl).
  vm_compute in H. discriminate.
Qed.

(** C2 (amended): when, in addition, serial identifiers are unique within
    the old list and within the new list, every lot of the ledger ends at
    its prior quantity minus what the new bindings hold of it plus what
    the old bindings held of it.  (That the referenced lots exist is not
    needed: the statement is about the lots the ledger has.) *)
Theorem reconcile_conservation old new db :
  well_formed old -> well_formed new ->
  forall l q, qty_of db l = Some q ->
    qty_of (reconcile old new db) l =
    Some (q - bound_total new l + bound_total old l).
Proof.
  intros Hold Hnew l q Hq.
  rewrite reconcile_deltas, qty_of_apply_deltas, Hq; simpl.
  rewrite net_reconcile by assumption. f_equal. lia.
Qed.

Lemma reconcile_conservation_witness :
  qty_of
    (reconcile
       [binding "X-001" [("L1", 2); ("L2", 1)]; binding "X-002" [("L2", 3)]]
       [binding "X-001" [("L1", 5)]; binding "X-003" [("L2", 4)]]
       [lot_entry "L1" 8; lot_entry "L2" 7]) "L2"
  = Some (7 - 4 + 4).
Proof.
  apply (reconcile_conservation
           [binding "X-001" [("L1", 2); ("L2", 1)]; binding "X-002" [("L2", 3)]]
           [binding "X-001" [("L1", 5)]; binding "X-003" [("L2", 4)]]
           [lot_entry "L1" 8; lot_entry "L2" 7]).
  - split; [nodup_strings | repeat constructor; nodup_strings].
  - split; [nodup_strings | repeat constructor; nodup_strings].
  - reflexivity.
Defined.

(** ** C3: saving unchanged bindings *)

Lemma update_stock_add0 lot db : update_stock lot (fun q => q + 0) db = db.
Proof.
  induction db as [|m rest IH]; simpl; [reflexivity|].
  destruct (StockItem.lot_number m =? lot)%string.
  - destruct m; simpl. now rewrite Z.add_0_r.
  - now rewrite IH.
Qed.

Lemma apply_deltas_zero ops db :
  Forall (fun op => snd op = 0) ops -> apply_deltas ops db = db.
Proof.
  unfold apply_deltas. induction 1 as [|op ops Hop _ IH]; simpl;
    [reflexivity|].
  unfold apply_delta at 2. now rewrite Hop, update_stock_add0.
Qed.

Lemma next_unique {A : Type} (key : A -> string) (xs : list A) (x : A) :
  NoDup (map key xs) -> In x xs ->
  next (fun y => key y =? key x)%string xs = Some x.
Proof.
  unfold next. induction xs as [|y xs IH]; simpl; intros Hnd Hin; [tauto|].
  inversion Hnd as [|? ? Hnotin Hnd']; subst.
  destruct Hin as [-> | Hin].
  - now rewrite String.eqb_refl.
  - destruct (key y =? key x)%string eqn:E.
    + apply String.eqb_eq in E. exfalso. apply Hnotin. rewrite E.
      now apply in_map.
    + now apply IH.
Qed.

Lemma existsb_lot_present mats m :
  In m mats -> existsb (fun m' => Mat.lot m' =? Mat.lot m)%string mats = true.
Proof.
  intros Hin. apply existsb_exists. exists m. split; [assumption|].
  apply String.eqb_refl.
Qed.

Lemma consumption_deltas_same old :
  well_formed old ->
  Forall (fun op => snd op = 0) (consumption_deltas old old).
Proof.
  intros [Hs Hl]. unfold consumption_deltas.
  apply Forall_flat_map. rewrite Forall_forall. intros ns Hns.
  rewrite Forall_map. rewrite Forall_forall. intros mat Hmat. simpl.
  unfold find_serial. rewrite (next_unique Serial.serial old ns Hs Hns).
  rewrite Forall_forall in Hl. specialize (Hl ns Hns).
  unfold old_qty_of.
  rewrite (next_unique Mat.lot (Serial.materials ns) mat Hl Hmat). lia.
Qed.

Lemma filter_none {A : Type} (p : A -> bool) (l : list A) :
  (forall x, In x l -> p x = false) -> filter p l = [].
Proof.
  induction l as [|x l IH]; simpl; intros H; [reflexivity|].
  rewrite (H x) by tauto. apply IH. intros y Hy. apply H. tauto.
Qed.

Lemma flat_map_none {A B : Type} (f : A -> list B) (l : list A) :
  (forall x, In x l -> f x = []) -> flat_map f l = [].
Proof.
  induction l as [|x l IH]; simpl; intros H; [reflexivity|].
  rewrite (H x) by tauto. apply IH. intros y Hy. apply H. tauto.
Qed.

Lemma recredit_deltas_same old :
  unique_serials old -> recredit_deltas old old = [].
Proof.
  intros Hs. unfold recredit_deltas.
  apply flat_map_none. intros o Ho. unfold find_serial.
  rewrite (next_unique Serial.serial old o Hs Ho).
  rewrite filter_none; [reflexivity|].
  intros om Hom. unfold still_used. now rewrite existsb_lot_present.
Qed.




(** ** C4: a serial that disappeared *)

Lemma find_serial_skip old1 o old2 s :
  Serial.serial o <> s ->
  find_serial (old1 ++ o :: old2) s = find_serial (old1 ++ old2) s.
Proof.
  intros Hne. unfold find_serial, next.
  induction old1 as [|x old1 IH]; simpl.
  - destruct (Serial.serial o =? s)%string eqn:E; [|reflexivity].
    apply String.eqb_eq in E. contradiction.
  - now rewrite IH.
Qed.

Lemma flat_map_agree {A B : Type} (f g : A -> list B) (l : list A) :
  (forall x, In x l -> f x = g x) -> flat_map f l = flat_map g l.
Proof.
  induction l as [|x l IH]; simpl; intros H; [reflexivity|].
  rewrite (H x) by tauto. f_equal. apply IH. intros y Hy. apply H. tauto.
Qed.

Lemma consumption_deltas_skip old1 o old2 new :
  ~ In (Serial.serial o) (map Serial.serial new) ->
  consumption_deltas (old1 ++ o :: old2) new =
  consumption_deltas (old1 ++ old2) new.
Proof.
  intros Hnotin. unfold consumption_deltas.
  apply flat_map_agree. intros ns Hns.
  rewrite find_serial_skip; [reflexivity|].
  intros Heq. apply Hnotin. rewrite Heq. now apply in_map.
Qed.

Lemma recredit_deltas_app old1 old2 new :
  recredit_deltas (old1 ++ old2) new =
  recredit_deltas old1 new ++ recredit_deltas old2 new.
Proof. unfold recredit_deltas. apply flat_map_app. Qed.

(** C4: an old binding whose serial is absent from the new list is
    recredited pair by pair, each for its full recorded quantity; compared
    with the same save without that binding, every lot of the ledger ends
    higher by exactly the quantity the binding held of it. *)
Theorem removed_serial_recredited old1 o old2 new db :
  ~ In (Serial.serial o) (map Serial.serial new) ->
  (forall db', recredit_serial new db' o =
               fold_left credit_mat (Serial.materials o) db') /\
  (forall l,
      qty_of (reconcile (old1 ++ o :: old2) new db) l =
      option_map (fun q => q + lot_total o l)
        (qty_of (reconcile (old1 ++ old2) new db) l)).
Proof.
  intros Hnotin.
  assert (Hnone : find_serial new (Serial.serial o) = None).
  { unfold find_serial. now apply next_absent. }
  split.
  - intros db'. unfold recredit_serial. now rewrite Hnone.
  - intros l. rewrite !reconcile_deltas, !qty_of_apply_deltas.
    rewrite consumption_deltas_skip by assumption.
    rewrite option_map_add.
    destruct (qty_of db l) as [q|]; simpl; [f_equal|reflexivity].
    rewrite !net_app.
    change (o :: old2) with ([o] ++ old2).
    rewrite !recredit_deltas_app, !net_app.
    assert (Ho : net (recredit_deltas [o] new) l = lot_total o l).
    { unfold recredit_deltas; simpl. rewrite app_nil_r, Hnone.
      apply net_credit_all. }
    rewrite Ho. lia.
Qed.

Lemma removed_serial_recredited_witness :
  qty_of
    (reconcile
       ([binding "X-001" [("L1", 2)]] ++ binding "X-002" [("L2", 3)] :: [])
       [binding "X-001" [("L1", 2)]]
       [lot_entry "L1" 8; lot_entry "L2" 7]) "L2"
  = option_map (fun q => q + lot_total (binding "X-002" [("L2", 3)]) "L2")
      (qty_of
         (reconcile ([binding "X-001" [("L1", 2)]] ++ [])
            [binding "X-001" [("L1", 2)]]
            [lot_entry "L1" 8; lot_entry "L2" 7]) "L2").
Proof.
  apply (removed_serial_recredited
           [binding "X-001" [("L1", 2)]] (binding "X-002" [("L2", 3)]) []
           [binding "X-001" [("L1", 2)]]
           [lot_entry "L1" 8; lot_entry "L2" 7]).
  simpl. intuition discriminate.
Defined.

(** ** C10: lots the ledger does not have *)

Lemma consume_mat_unknown old_entry db mat :
  known db (Mat.lot mat) = false -> consume_mat old_entry db mat = db.
Proof.
  unfold known, consume_mat.
  now destruct (find_stock db (Mat.lot mat)).
Qed.

Lemma credit_mat_unknown db om :
  known db (Mat.lot om) = false -> credit_mat db om = db.
Proof.
  unfold known, credit_mat.
  now destruct (find_stock db (Mat.lot om)).
Qed.

Lemma known_lots db l :
  known db l = existsb (fun x => x =? l)%string (lots_of db).
Proof.
  unfold known, find_stock, next, lots_of.
  induction db as [|m rest IH]; simpl; [reflexivity|].
  now destruct (StockItem.lot_number m =? l)%string.
Qed.

Lemma known_same_lots db db' l :
  lots_of db = lots_of db' -> known db l = known db' l.
Proof. intros H. now rewrite !known_lots, H. Qed.

Lemma apply_deltas_known_only ops : forall db db0,
  lots_of db0 = lots_of db ->
  apply_deltas (filter (fun op => known db0 (fst op)) ops) db =
  apply_deltas ops db.
Proof.
  unfold apply_deltas.
  induction ops as [|op ops IH]; intros db db0 Hlots; simpl; [reflexivity|].
  destruct (known db0 (fst op)) eqn:Hk; simpl.
  - apply IH. unfold apply_delta. now rewrite update_stock_lots.
  - rewrite (known_same_lots db0 db _ Hlots) in Hk.
    replace (apply_delta db op) with db; [now apply IH|].
    unfold apply_delta. symmetry. apply update_stock_absent.
    unfold known in Hk. now destruct (find_stock db (fst op)).
Qed.

Lemma find_filter_implied {A : Type} (p q : A -> bool) (l : list A) :
  (forall x, p x = true -> q x = true) -> find p (filter q l) = find p l.
Proof.
  intros Hpq. induction l as [|x l IH]; simpl; [reflexivity|].
  destruct (q x) eqn:Hq; simpl.
  - destruct (p x); [reflexivity | exact IH].
  - destruct (p x) eqn:Hp; [|exact IH].
    rewrite (Hpq x Hp) in Hq. discriminate.
Qed.

Lemma existsb_filter_implied {A : Type} (p q : A -> bool) (l : list A) :
  (forall x, p x = true -> q x = true) ->
  existsb p (filter q l) = existsb p l.
Proof.
  intros Hpq. induction l as [|x l IH]; simpl; [reflexivity|].
  destruct (q x) eqn:Hq; simpl.
  - now rewrite IH.
  - destruct (p x) eqn:Hp; [|exact IH].
    rewrite (Hpq x Hp) in Hq. discriminate.
Qed.

Lemma filter_of_map {A B : Type} (f : A -> B) (p : B -> bool) (l : list A) :
  filter p (map f l) = map f (filter (fun x => p (f x)) l).
Proof.
  induction l as [|x l IH]; simpl; [reflexivity|].
  destruct (p (f x)); simpl; now rewrite IH.
Qed.

Lemma filter_of_flat_map {A B : Type} (f : A -> list B) (p : B -> bool) l :
  filter p (flat_map f l) = flat_map (fun x => filter p (f x)) l.
Proof.
  induction l as [|x l IH]; simpl; [reflexivity|].
  now rewrite filter_app, IH.
Qed.

Lemma flat_map_of_map {A B C : Type} (g : A -> B) (f : B -> list C) l :
  flat_map f (map g l) = flat_map (fun x => f (g x)) l.
Proof.
  induction l as [|x l IH]; simpl; [reflexivity|]. now rewrite IH.
Qed.

Lemma filter_swap {A : Type} (p q : A -> bool) (l : list A) :
  filter p (filter q l) = filter q (filter p l).
Proof.
  induction l as [|x l IH]; simpl; [reflexivity|].
  destruct (p x) eqn:Hp, (q x) eqn:Hq; simpl; rewrite ?Hp, ?Hq, IH;
    reflexivity.
Qed.

Lemma filter_agree {A : Type} (p q : A -> bool) (l : list A) :
  (forall x, In x l -> p x = q x) -> filter p l = filter q l.
Proof.
  induction l as [|x l IH]; simpl; intros H; [reflexivity|].
  rewrite (H x) by tauto. rewrite IH; [reflexivity|].
  intros y Hy. apply H. tauto.
Qed.

Lemma find_serial_drop_unknown db serials s :
  find_serial (drop_unknown db serials) s =
  option_map (drop_unknown_mats db) (find_serial serials s).
Proof.
  unfold find_serial, next, drop_unknown.
  induction serials as [|x serials IH]; simpl; [reflexivity|].
  destruct (Serial.serial x =? s)%string; [reflexivity | exact IH].
Qed.

Lemma old_qty_of_drop_unknown db old_entry l :
  known db l = true ->
  old_qty_of (option_map (drop_unknown_mats db) old_entry) l 0 =
  old_qty_of old_entry l 0.
Proof.
  intros Hk. destruct old_entry as [oe|]; simpl; [|reflexivity].
  unfold next. rewrite find_filter_implied; [reflexivity|].
  intros m Hm. apply String.eqb_eq in Hm. now rewrite Hm.
Qed.

Lemma still_used_drop_unknown db sp l :
  known db l = true ->
  still_used (drop_unknown_mats db sp) l = still_used sp l.
Proof.
  intros Hk. unfold still_used; simpl.
  apply existsb_filter_implied.
  intros m Hm. apply String.eqb_eq in Hm. now rewrite Hm.
Qed.

Lemma consumption_deltas_drop_unknown db old new :
  consumption_deltas (drop_unknown db old) (drop_unknown db new) =
  filter (fun op => known db (fst op)) (consumption_deltas old new).
Proof.
  unfold consumption_deltas. unfold drop_unknown at 2.
  rewrite flat_map_of_map, filter_of_flat_map.
  apply flat_map_agree. intros ns _. simpl.
  rewrite filter_of_map; simpl.
  apply map_ext_in. intros mat Hmat.
  apply filter_In in Hmat. destruct Hmat as [_ Hk].
  now rewrite find_serial_drop_unknown, old_qty_of_drop_unknown.
Qed.

Lemma recredit_deltas_drop_unknown db old new :
  recredit_deltas (drop_unknown db old) (drop_unknown db new) =
  filter (fun op => known db (fst op)) (recredit_deltas old new).
Proof.
  unfold recredit_deltas. unfold drop_unknown at 2.
  rewrite flat_map_of_map, filter_of_flat_map.
  apply flat_map_agree. intros o _. simpl.
  rewrite filter_of_map; simpl. f_equal.
  rewrite find_serial_drop_unknown.
  destruct (find_serial new (Serial.serial o)) as [sp|]; simpl;
    [|reflexivity].
  rewrite (filter_swap _ (fun om => negb (still_used sp (Mat.lot om)))).
  apply filter_agree.
  intros om Hom. apply filter_In in Hom. destruct Hom as [_ Hk].
  now rewrite still_used_drop_unknown.
Qed.

Lemma drop_unknown_same_lots db db' serials :
  lots_of db = lots_of db' -> drop_unknown db serials = drop_unknown db' serials.
Proof.
  intros H. unfold drop_unknown, drop_unknown_mats.
  apply map_ext. intros s. f_equal.
  apply filter_agree. intros m _. now apply known_same_lots.
Qed.

Lemma reconcile_lots old new db : lots_of (reconcile old new db) = lots_of db.
Proof. rewrite reconcile_deltas. apply apply_deltas_lots. Qed.

(** C10: pairs whose lot the ledger does not have are skipped by both
    passes.  Each pass, and the whole reconciliation, gives the ledger it
    would give with those pairs removed from the old and the new
    bindings; the passes are total functions (nothing is raised); and the
    list of lot numbers of the ledger is the same afterwards (no entry is
    created). *)
Theorem unknown_lots_are_skipped old new db :
  consumption_pass old new db =
    consumption_pass (drop_unknown db old) (drop_unknown db new) db
  /\ recredit_pass old new db =
       recredit_pass (drop_unknown db old) (drop_unknown db new) db
  /\ reconcile old new db =
       reconcile (drop_unknown db old) (drop_unknown db new) db
  /\ lots_of (reconcile old new db) = lots_of db.
Proof.
  assert (H1 : forall db0, lots_of db0 = lots_of db ->
             consumption_pass old new db =
             consumption_pass (drop_unknown db0 old) (drop_unknown db0 new) db).
  { intros db0 H0. rewrite !consumption_pass_deltas.
    rewrite consumption_deltas_drop_unknown.
    symmetry. now apply apply_deltas_known_only. }
  assert (H2 : forall db0 db1, lots_of db0 = lots_of db1 ->
             recredit_pass old new db1 =
             recredit_pass (drop_unknown db0 old) (drop_unknown db0 new) db1).
  { intros db0 db1 H0. rewrite !recredit_pass_deltas.
    rewrite recredit_deltas_drop_unknown.
    symmetry. now apply apply_deltas_known_only. }
  repeat split.
  - now apply H1.
  - now apply H2.
  - unfold reconcile. rewrite <- (H1 db eq_refl). apply H2.
    rewrite consumption_pass_deltas. symmetry. apply apply_deltas_lots.
  - apply reconcile_lots.
Qed.

(** A credit and a debit aimed at a lot the ledger lacks: nothing moves. *)
Example scenario_unknown_lot :
  reconcile [binding "X-001" [("L9", 4)]]
            [binding "X-001" [("L9", 6)]; binding "X-002" [("L8", 1)]]
            [lot_entry "L1" 8]
  = [lot_entry "L1" 8].
Proof. reflexivity. Qed.

(** ** Pricing: subtotal *)

Lemma fold_left_Qplus {A : Type} (f : A -> Q) (l : list A) (acc : Q) :
  (fold_left (fun a x => a + f x) l acc == acc + sumQ (map f l))%Q.
Proof.
  revert acc. induction l as [|x l IH]; intros acc; simpl.
  - ring.
  - rewrite IH. ring.
Qed.

Lemma subtotal_quote_sum items :
  (subtotal_quote items == sum_of_products items)%Q.
Proof.
  unfold subtotal_quote, sum_of_products.
  rewrite (fold_left_Qplus line_total). ring.
Qed.

Lemma tab1_subtotal_sum lines :
  (tab1_subtotal lines == sum_of_products lines)%Q.
Proof.
  unfold tab1_subtotal, py_sum, sum_of_products.
  pose proof (fold_left_Qplus (fun x => x) (map line_total lines) 0) as H.
  rewrite map_id in H.
  change (fold_left (fun a x => a + x) (map line_total lines) 0
          == sumQ (map line_total lines))%Q.
  rewrite H. ring.
Qed.

Lemma subtotal_serials_sum items serials :
  (subtotal_serials items serials ==
   sumQ (map (unit_price_of items) (map Serial.product serials)))%Q.
Proof.
  unfold subtotal_serials. rewrite map_map.
  rewrite (fold_left_Qplus (fun s => unit_price_of items (Serial.product s))).
  ring.
Qed.

Lemma sumQ_perm l l' : Permutation l l' -> (sumQ l == sumQ l')%Q.
Proof.
  induction 1 as [| x l l' _ IH | x y l | l l' l'' _ IH1 _ IH2]; simpl.
  - reflexivity.
  - now rewrite IH.
  - ring.
  - now rewrite IH1.
Qed.

Lemma sum_of_products_perm items items' :
  Permutation items items' ->
  (sum_of_products items == sum_of_products items')%Q.
Proof.
  intros H. unfold sum_of_products. apply sumQ_perm. now apply Permutation_map.
Qed.

Lemma sum_of_products_non_negative items :
  non_negative_items items -> (0 <= sum_of_products items)%Q.
Proof.
  unfold sum_of_products. induction 1 as [|it items [Hp Hq] _ IH]; simpl.
  - apply Qle_refl.
  - assert (0 <= line_total it)%Q.
    { unfold line_total. apply Qmult_le_0_compat; [assumption|].
      change 0%Q with (inject_Z 0). now rewrite <- Zle_Qle. }
    lra.
Qed.

(** The quote path: both places that compute a quote subtotal give the sum
    of the per-line products, whatever the order of the lines. *)
Lemma quote_subtotal_is_sum items items' :
  Permutation items items' ->
  (tab1_subtotal items == sum_of_products items
   /\ build_pdf_subtotal "quote" items [] == sum_of_products items
   /\ tab1_subtotal items == tab1_subtotal items'
   /\ build_pdf_subtotal "quote" items [] ==
      build_pdf_subtotal "quote" items' [])%Q.
Proof.
  intros Hperm.
  change (build_pdf_subtotal "quote" items []) with (subtotal_quote items).
  change (build_pdf_subtotal "quote" items' []) with (subtotal_quote items').
  rewrite !tab1_subtotal_sum, !subtotal_quote_sum.
  repeat split; try reflexivity; now apply sum_of_products_perm.
Qed.

(** ** C5: discount and total *)

Lemma py_min_Qmin a b : py_min a b = Qmin a b.
Proof.
  unfold py_min, Qmin, GenericMinMax.gmin.
  rewrite <- (Qcompare_antisym a b).
  destruct (a ?= b)%Q; reflexivity.
Qed.

Lemma discount_bounds s dv pct :
  (0 <= s)%Q -> (0 <= dv)%Q -> (pct = true -> (dv <= 100)%Q) ->
  (0 <= discount_amount s dv pct /\ discount_amount s dv pct <= s)%Q.
Proof.
  intros Hs Hdv Hpct. unfold discount_amount.
  destruct pct.
  - specialize (Hpct eq_refl).
    assert (0 <= dv / 100 <= 1)%Q.
    { split; [apply Qle_shift_div_l | apply Qle_shift_div_r]; lra. }
    nra.
  - rewrite py_min_Qmin. split.
    + apply Q.min_glb; assumption.
    + apply Q.le_min_r.
Qed.

Lemma totals_ok_of_bounds s dv pct :
  (0 <= s)%Q -> (0 <= dv)%Q -> (pct = true -> (dv <= 100)%Q) ->
  totals_ok s dv pct (discount_amount s dv pct) (tab1_total s dv pct) /\
  totals_ok s dv pct (discount_amount s dv pct) (build_pdf_total s dv pct).
Proof.
  intros Hs Hdv Hpct.
  destruct (discount_bounds s dv pct Hs Hdv Hpct) as [H0 H1].
  assert (Hd : (discount_amount s dv pct ==
                if pct then s * (dv / 100) else Qmin dv s)%Q).
  { unfold discount_amount. destruct pct; [reflexivity|].
    now rewrite py_min_Qmin. }
  unfold totals_ok, tab1_total, build_pdf_total, vat_amount.
  repeat split; try assumption; try lra.
Qed.




(** The scenarios of the specification: 10 % of 100, and 150 capped. *)
Example scenario_discounts :
  (discount_amount 100 10 true == 10 /\ tab1_total 100 10 true == 90
   /\ discount_amount 100 150 false == 100 /\ tab1_total 100 150 false == 0)%Q.
Proof. repeat split; reflexivity. Qed.

(** ** Serial numbering *)

Lemma map_seq_offset {A : Type} (f : nat -> A) n a :
  map f (seq a n) = map (fun j => f (a + j)%nat) (seq 0 n).
Proof.
  rewrite <- (Nat.add_0_r a) at 1. generalize 0%nat as b.
  induction n as [|n IH]; intros b; simpl; [reflexivity|].
  f_equal. rewrite <- IH. f_equal. f_equal. lia.
Qed.

Section SerialLoopFacts.
Variable quote_no : string.
Variable materials_for_serial : nat -> nat -> string -> list Mat.t.

Local Abbreviation ustep := (unit_step quote_no materials_for_serial).
Local Abbreviation lstep := (line_step quote_no materials_for_serial).

Local Abbreviation serial_from := (serial_from quote_no).

Lemma unit_loop i it qs : forall st,
  let st' := fold_left (ustep i it) qs st in
  fst st' = fst st + Z.of_nat (List.length qs)
  /\ map Serial.serial (snd st') =
     map Serial.serial (snd st)
     ++ map (serial_from (fst st)) (seq 0 (List.length qs))
  /\ map Serial.product (snd st') =
     map Serial.product (snd st)
     ++ repeat (Item.description it) (List.length qs).
Proof.
  induction qs as [|q qs IH]; intros st; simpl.
  - rewrite !app_nil_r. repeat split. lia.
  - destruct (IH (ustep i it st q)) as (Hc & Hs & Hp).
    rewrite Hc, Hs, Hp. clear Hc Hs Hp IH.
    unfold unit_step; cbn [fst snd].
    rewrite !map_app; cbn [map Serial.serial Serial.product].
    rewrite <- !app_assoc; cbn [app].
    repeat split.
    + lia.
    + f_equal. unfold serial_from at 2. rewrite Z.add_0_r. f_equal.
      rewrite (map_seq_offset _ _ 1%nat).
      apply map_ext. intros j. unfold serial_from. f_equal. lia.
Qed.

Lemma line_loop ils : forall st,
  let st' := fold_left lstep ils st in
  fst st' = fst st + Z.of_nat (total_units (map snd ils))
  /\ map Serial.serial (snd st') =
     map Serial.serial (snd st)
     ++ map (serial_from (fst st)) (seq 0 (total_units (map snd ils)))
  /\ map Serial.product (snd st') =
     map Serial.product (snd st) ++ unit_products (map snd ils).
Proof.
  induction ils as [|[i it] ils IH]; intros st; simpl.
  - rewrite !app_nil_r. repeat split. lia.
  - destruct (IH (lstep st (i, it))) as (Hc & Hs & Hp).
    rewrite Hc, Hs, Hp. clear Hc Hs Hp IH.
    unfold line_step; cbn [fst snd].
    destruct (unit_loop i it (seq 0 (Z.to_nat (Item.quantity it))) st)
      as (Hc & Hs & Hp).
    rewrite length_seq in Hc, Hs, Hp. rewrite Hc, Hs, Hp.
    rewrite <- !app_assoc. repeat split.
    + lia.
    + f_equal. rewrite seq_app, map_app. f_equal. cbn [Nat.add].
      rewrite (map_seq_offset _ _ (Z.to_nat (Item.quantity it))).
      apply map_ext. intros j. unfold serial_from. f_equal. lia.
Qed.

Lemma map_snd_enumerate {A : Type} (l : list A) : map snd (enumerate l) = l.
Proof.
  unfold enumerate. generalize 0%nat.
  induction l as [|x l IH]; intros a; simpl; [reflexivity|].
  now rewrite IH.
Qed.

Lemma new_serials_serials lines :
  map Serial.serial (new_serials_of quote_no materials_for_serial lines) =
  map (fun k => generate_serial quote_no (Z.of_nat k))
    (seq 1 (total_units lines)).
Proof.
  unfold new_serials_of, serial_loop.
  destruct (line_loop (enumerate lines) (1, [])) as (_ & Hs & _).
  rewrite Hs, map_snd_enumerate; simpl.
  rewrite (map_seq_offset _ _ 1%nat).
  apply map_ext. intros j. unfold serial_from. f_equal. lia.
Qed.

Lemma new_serials_products lines :
  map Serial.product (new_serials_of quote_no materials_for_serial lines) =
  unit_products lines.
Proof.
  unfold new_serials_of, serial_loop.
  destruct (line_loop (enumerate lines) (1, [])) as (_ & _ & Hp).
  now rewrite Hp, map_snd_enumerate.
Qed.
End SerialLoopFacts.

Lemma format_03d_three_digits k :
  0 <= k <= 999 -> format_03d k = three_digits k.
Proof.
  intros Hk.
  assert (Hall : forallb
            (fun n => (format_03d (Z.of_nat n) =? three_digits (Z.of_nat n))%string)
            (seq 0 1000) = true) by (vm_compute; reflexivity).
  rewrite forallb_forall in Hall.
  specialize (Hall (Z.to_nat k)).
  rewrite Z2Nat.id in Hall by lia.
  apply String.eqb_eq. apply Hall. apply in_seq. lia.
Qed.

(** C9: the k-th unit of an invoice, counting from 1 through the lines in
    their order with each line contributing [quantity] units, gets the
    serial "N-" followed by k in the format [03d] (for k up to 999: by k
    written with three digits), and carries the description of its line;
    this holds whatever the operator selects and whatever was saved
    before, the list being rebuilt from the lines alone. *)
Theorem kth_unit_serial quote_no materials_for_serial lines k :
  (1 <= k <= total_units lines)%nat ->
  exists s,
    nth_error (new_serials_of quote_no materials_for_serial lines) (k - 1)
      = Some s
    /\ Serial.serial s = generate_serial quote_no (Z.of_nat k)
    /\ nth_error (unit_products lines) (k - 1) = Some (Serial.product s)
    /\ ((k <= 999)%nat ->
        Serial.serial s = (quote_no ++ "-" ++ three_digits (Z.of_nat k))%string).
Proof.
  intros Hk.
  pose proof (new_serials_serials quote_no materials_for_serial lines) as Hs.
  pose proof (new_serials_products quote_no materials_for_serial lines) as Hp.
  set (new := new_serials_of quote_no materials_for_serial lines) in *.
  assert (Hlen : List.length new = total_units lines).
  { rewrite <- (length_map Serial.serial), Hs, length_map, length_seq.
    reflexivity. }
  destruct (nth_error new (k - 1)) as [s|] eqn:Hn.
  2:{ apply nth_error_None in Hn. lia. }
  exists s. split; [reflexivity|].
  assert (Hser : Serial.serial s = generate_serial quote_no (Z.of_nat k)).
  { pose proof (map_nth_error Serial.serial _ _ Hn) as H1.
    rewrite Hs in H1.
    assert (H2 : nth_error (seq 1 (total_units lines)) (k - 1) = Some k).
    { rewrite nth_error_seq.
      destruct (Nat.ltb_spec (k - 1) (total_units lines)); [f_equal|]; lia. }
    rewrite (map_nth_error _ _ _ H2) in H1. now injection H1. }
  repeat split.
  - exact Hser.
  - rewrite <- Hp. now apply map_nth_error.
  - intros H999. rewrite Hser. unfold generate_serial.
    rewrite format_03d_three_digits by lia. reflexivity.
Qed.

Lemma kth_unit_serial_witness :
  exists s,
    nth_error
      (new_serials_of "20240115-001" (fun _ _ _ => [])
         [Item.mk "Sac" 10 2; Item.mk "Ceinture" 5 1]) (3 - 1) = Some s
    /\ Serial.serial s = generate_serial "20240115-001" (Z.of_nat 3)
    /\ nth_error (unit_products [Item.mk "Sac" 10 2; Item.mk "Ceinture" 5 1])
         (3 - 1) = Some (Serial.product s)
    /\ ((3 <= 999)%nat ->
        Serial.serial s
        = ("20240115-001" ++ "-" ++ three_digits (Z.of_nat 3))%string).
Proof.
  apply (kth_unit_serial "20240115-001" (fun _ _ _ => [])
           [Item.mk "Sac" 10 2; Item.mk "Ceinture" 5 1] 3).
  simpl. lia.
Defined.

Example serials_of_two_lines :
  map (fun s => (Serial.serial s, Serial.product s))
    (new_serials_of "20240115-001" (fun _ _ _ => [])
       [Item.mk "Sac" 10 2; Item.mk "Ceinture" 5 1])
  = [("20240115-001-001", "Sac"); ("20240115-001-002", "Sac");
     ("20240115-001-003", "Ceinture")].
Proof. reflexivity. Qed.

(** ** C6: the subtotal of an invoice with serials *)

Lemma sumQ_app l1 l2 : (sumQ (l1 ++ l2) == sumQ l1 + sumQ l2)%Q.
Proof.
  unfold sumQ. induction l1 as [|x l1 IH]; simpl; [ring|].
  rewrite IH. ring.
Qed.

Lemma sumQ_repeat (x : Q) (n : nat) :
  (sumQ (repeat x n) == x * inject_Z (Z.of_nat n))%Q.
Proof.
  induction n as [|n IH].
  - simpl. ring.
  - cbn [repeat sumQ fold_right]. fold (sumQ (repeat x n)). rewrite IH.
    rewrite Nat2Z.inj_succ. unfold Z.succ. rewrite inject_Z_plus. ring.
Qed.

(** With pairwise distinct descriptions and non-negative quantities, the
    per-serial subtotal of the serials the invoice tab generates is the
    sum of the per-line products. *)
Lemma serial_subtotal_distinct_descriptions quote_no materials_for_serial items :
  NoDup (map Item.description items) ->
  non_negative_items items ->
  (build_pdf_subtotal "invoice" items
     (new_serials_of quote_no materials_for_serial items)
   == sum_of_products items)%Q.
Proof.
  intros Hnd Hnn.
  assert (Hser : (subtotal_serials items
                    (new_serials_of quote_no materials_for_serial items)
                  == sum_of_products items)%Q).
  { rewrite subtotal_serials_sum, new_serials_products.
    assert (Hgen : forall its, incl its items ->
               (sumQ (map (unit_price_of items) (unit_products its))
                == sum_of_products its)%Q).
    { induction its as [|it its IH]; intros Hincl; [reflexivity|].
      unfold unit_products, sum_of_products in *. cbn [flat_map map].
      rewrite map_app, sumQ_app. cbn [sumQ fold_right].
      fold (sumQ (map line_total its)).
      rewrite IH by (intros x Hx; apply Hincl; now right).
      rewrite map_repeat, sumQ_repeat.
      assert (Hin : In it items) by (apply Hincl; now left).
      unfold unit_price_of.
      rewrite (next_unique Item.description items it Hnd Hin).
      unfold non_negative_items in Hnn. rewrite Forall_forall in Hnn.
      destruct (Hnn it Hin) as [_ Hq].
      unfold line_total. rewrite Z2Nat.id by assumption. reflexivity. }
    apply Hgen. apply incl_refl. }
  unfold build_pdf_subtotal.
  destruct (negb (Nat.eqb (List.length
              (new_serials_of quote_no materials_for_serial items)) 0))
    eqn:E; cbn [String.eqb andb]; [exact Hser|].
  (* no unit at all: the quote loop runs, with the same result *)
  apply subtotal_quote_sum.
Qed.

(** C6 fails on the invoice-with-serials path for two lines that share a
    description: every serial is priced at the unit price of the first
    such line.  With lines ("Sac", 10, 1) and ("Sac", 20, 1) and the two
    serials the invoice tab generates for them, the document's subtotal is
    20 where the per-line products sum to 30, and it becomes 40 when the
    two lines are swapped. *)
Theorem serial_subtotal_same_description :
  let serials :=
    new_serials_of "20240115-001" (fun _ _ _ => []) same_description_items in
  (build_pdf_subtotal "invoice" same_description_items serials == 20
   /\ sum_of_products same_description_items == 30
   /\ ~ build_pdf_subtotal "invoice" same_description_items serials
        == sum_of_products same_description_items
   /\ build_pdf_subtotal "invoice" (rev same_description_items) serials == 40)%Q.
Proof.
  cbv zeta. repeat split; try reflexivity.
  vm_compute. discriminate.
Qed.

(** ** Loaders *)

Section LoaderFacts.
Variable fs : string -> option (list Store.row).
Variable float_of_string : string -> option Q.
Variable int_of_string : string -> option Z.
Variable strptime_ymd : string -> option (Z * Z * Z).
Variable json_loads : string -> option Store.value.

Local Abbreviation load_catalog :=
  (Store.load_catalog fs float_of_string int_of_string).
Local Abbreviation load_clients := (Store.load_clients fs).
Local Abbreviation load_quotes :=
  (Store.load_quotes fs float_of_string strptime_ymd json_loads).
Local Abbreviation load_stock := (Store.load_stock fs int_of_string).
Local Abbreviation load_quote_row :=
  (Store.load_quote_row float_of_string strptime_ymd json_loads).
Local Abbreviation load_json_column := (Store.load_json_column json_loads).
Local Abbreviation missing_or_malformed :=
  (Store.missing_or_malformed json_loads).
Local Abbreviation other_columns_load :=
  (Store.other_columns_load float_of_string strptime_ymd json_loads).

Lemma open_csv_missing path :
  fs path = None -> Store.open_csv fs path = Store.Raise Store.FileNotFoundError.
Proof. unfold Store.open_csv. now intros ->. Qed.

(** C7: when the backing file does not exist, the loaders of the catalog,
    the clients, the quotes and invoices, and the stock each return the
    empty list, and raise nothing. *)
Theorem missing_file_loads_empty path :
  fs path = None ->
  load_catalog path = Store.Ok []
  /\ load_clients path = Store.Ok []
  /\ load_quotes path = Store.Ok []
  /\ load_stock path = Store.Ok [].
Proof.
  intros Hmissing.
  unfold Store.load_catalog, Store.load_clients, Store.load_quotes,
    Store.load_stock.
  rewrite (open_csv_missing path Hmissing).
  repeat split; reflexivity.
Qed.

Lemma load_json_column_default r column :
  json_loads "[]" = Some (Store.VList []) ->
  missing_or_malformed r column ->
  load_json_column r column = Store.VList [].
Proof.
  intros Hempty Hbad.
  unfold Store.load_json_column, Store.get, Store.loads.
  destruct Hbad as [Hnone | [Hcell | [s [Hs Hparse]]]].
  - now rewrite Hnone, Hempty.
  - now rewrite Hcell.
  - now rewrite Hs, Hparse.
Qed.

(** C8: a record whose other columns load is loaded whatever its
    [materials] and [serials] columns hold; a column that is missing, or
    whose content [json.loads] rejects, gives the empty list in the
    corresponding field. *)
Theorem malformed_columns_default_empty r :
  json_loads "[]" = Some (Store.VList []) ->
  other_columns_load r ->
  exists q,
    load_quote_row r = Store.Ok q
    /\ (missing_or_malformed r "materials" ->
        Store.materials q = Store.VList [])
    /\ (missing_or_malformed r "serials" ->
        Store.serials q = Store.VList []).
Proof.
  intros Hempty (its & cl & n & d & dv & pc & pl &
                 Hits & Hcl & Hn & Hd & Hdv & Hpc & Hpl).
  unfold Store.load_quote_row.
  rewrite Hits, Hcl, Hn; cbn [Store.bind].
  destruct (Store.getitem r "date") as [dc|]; [|discriminate].
  cbn [Store.bind] in Hd |- *. rewrite Hd; cbn [Store.bind].
  destruct (Store.getitem r "discount_value") as [dvc|]; [|discriminate].
  cbn [Store.bind] in Hdv |- *. rewrite Hdv, Hpc, Hpl; cbn [Store.bind].
  eexists. split; [reflexivity|].
  cbn [Store.materials Store.serials].
  split; intros Hbad; now apply load_json_column_default.
Qed.
End LoaderFacts.

Lemma missing_file_loads_empty_witness :
  Store.load_quotes (fun _ => None) Store.toy_float Store.toy_date
    Store.toy_json_loads "quotes.csv" = Store.Ok [].
Proof.
  apply (missing_file_loads_empty (fun _ => None) Store.toy_float
           Store.toy_int Store.toy_date Store.toy_json_loads "quotes.csv").
  reflexivity.
Defined.

Lemma malformed_columns_default_empty_witness :
  exists q,
    Store.load_quote_row Store.toy_float Store.toy_date Store.toy_json_loads
      Store.legacy_row = Store.Ok q
    /\ (Store.missing_or_malformed Store.toy_json_loads Store.legacy_row
          "materials" -> Store.materials q = Store.VList [])
    /\ (Store.missing_or_malformed Store.toy_json_loads Store.legacy_row
          "serials" -> Store.serials q = Store.VList []).
Proof.
  apply (malformed_columns_default_empty Store.toy_float Store.toy_date
           Store.toy_json_loads Store.legacy_row).
  - reflexivity.
  - unfold Store.other_columns_load. do 7 eexists.
    repeat split; vm_compute; reflexivity.
Defined.

(** The legacy row loads, with both fields empty: its [materials] column
    is absent and its [serials] cell does not parse. *)
Example legacy_row_loads :
  Store.missing_or_malformed Store.toy_json_loads Store.legacy_row "materials"
  /\ Store.missing_or_malformed Store.toy_json_loads Store.legacy_row "serials"
  /\ exists q,
       Store.load_quotes (fun _ => Some [Store.legacy_row]) Store.toy_float
         Store.toy_date Store.toy_json_loads "quotes.csv" = Store.Ok [q]
       /\ Store.materials q = Store.VList []
       /\ Store.serials q = Store.VList [].
Proof.
  split; [left; reflexivity|].
  split; [right; right; exists "[{"; split; reflexivity|].
  eexists. split; [vm_compute; reflexivity|]. split; reflexivity.
Qed.

(* ================================================================== *)
(** * Part III: further properties of the code *)
(* ================================================================== *)

(** ** Serial identifiers can be read back *)

Lemma uint_of_string_zeros n d :
  exists u,
    NilEmpty.uint_of_string (zeros n ++ NilEmpty.string_of_uint d)%string
      = Some u
    /\ N.of_uint u = N.of_uint d.
Proof.
  induction n as [|n [u [Hu Hv]]]; simpl.
  - exists d. split; [apply NilEmpty.usu | reflexivity].
  - rewrite Hu. simpl. exists (Decimal.D0 u). split; [reflexivity | exact Hv].
Qed.

Lemma parse_format_03d idx : parse_03d (format_03d idx) = Some idx.
Proof.
  unfold format_03d, parse_03d.
  destruct (Z.ltb_spec idx 0) as [Hneg | Hpos].
  - cbn [String.append String.length].
    destruct (uint_of_string_zeros
                (3 - 1 - String.length
                   (NilEmpty.string_of_uint (N.to_uint (Z.abs_N idx))))
                (N.to_uint (Z.abs_N idx))) as [u [Hu Hv]].
    cbn [NilEmpty.uint_of_string]. rewrite Hu. cbn.
    rewrite Hv, DecimalN.Unsigned.of_to. f_equal. lia.
  - cbn [String.append String.length].
    destruct (uint_of_string_zeros
                (3 - 0 - String.length
                   (NilEmpty.string_of_uint (N.to_uint (Z.abs_N idx))))
                (N.to_uint (Z.abs_N idx))) as [u [Hu Hv]].
    rewrite Hu, Hv, DecimalN.Unsigned.of_to. f_equal. lia.
Qed.

Lemma format_03d_injective i j : format_03d i = format_03d j -> i = j.
Proof.
  intros H. pose proof (parse_format_03d i) as Hi.
  rewrite H, parse_format_03d in Hi. now injection Hi.
Qed.

Lemma append_cancel_l (s a b : string) :
  (s ++ a)%string = (s ++ b)%string -> a = b.
Proof.
  induction s as [|c s IH]; simpl; intros H; [assumption|].
  injection H as H. now apply IH.
Qed.

Lemma generate_serial_cancel quote_no i j :
  generate_serial quote_no i = generate_serial quote_no j -> i = j.
Proof.
  unfold generate_serial. intros H.
  apply append_cancel_l in H. apply (append_cancel_l "-") in H.
  now apply format_03d_injective.
Qed.

(** X1: for one document number, two different indices get different
    serial identifiers: the identifier determines the unit, also beyond
    999 units and whatever the sign of the index. *)
Theorem generate_serial_injective quote_no i j :
  i <> j -> generate_serial quote_no i <> generate_serial quote_no j.
Proof.
  intros Hne H. apply Hne. now apply generate_serial_cancel in H.
Qed.

Lemma generate_serial_injective_witness :
  generate_serial "20240115-001" 7 <> generate_serial "20240115-001" 1007.
Proof.
  apply (generate_serial_injective "20240115-001" 7 1007). lia.
Defined.

Lemma NoDup_map_injective_on {A B : Type} (f : A -> B) (l : list A) :
  (forall x y, In x l -> In y l -> f x = f y -> x = y) ->
  NoDup l -> NoDup (map f l).
Proof.
  intros Hinj Hnd. induction Hnd as [|x l Hnotin Hnd IH]; simpl;
    constructor.
  - intros Hin. apply in_map_iff in Hin. destruct Hin as [y [Hy Hyl]].
    assert (y = x) by (apply Hinj; simpl; auto). subst y. contradiction.
  - apply IH. intros a b Ha Hb. apply Hinj; simpl; auto.
Qed.

(** X2: the list of serials the invoice tab builds has one entry per
    physical unit and no serial identifier twice, whatever the lines, the
    document number and the operator's selections. *)
Theorem new_serials_unique quote_no materials_for_serial lines :
  List.length (new_serials_of quote_no materials_for_serial lines)
    = total_units lines
  /\ unique_serials (new_serials_of quote_no materials_for_serial lines).
Proof.
  pose proof (new_serials_serials quote_no materials_for_serial lines) as Hs.
  split.
  - rewrite <- (length_map Serial.serial), Hs, length_map, length_seq.
    reflexivity.
  - unfold unique_serials. rewrite Hs.
    apply NoDup_map_injective_on; [|apply seq_NoDup].
    intros x y _ _ H. apply generate_serial_cancel in H. lia.
Qed.

(** ** More on reconciliation *)

Lemma sumZ_map_opp {A : Type} (f : A -> Z) xs :
  sumZ (map (fun x => - f x) xs) = - sumZ (map f xs).
Proof. unfold sumZ. induction xs; simpl; lia. Qed.

Lemma net_consumption_first_save new l :
  net (consumption_deltas [] new) l = - bound_total new l.
Proof.
  unfold consumption_deltas, bound_total.
  rewrite net_flat_map, <- sumZ_map_opp. f_equal.
  apply map_ext. intros ns. unfold lot_total. simpl.
  induction (Serial.materials ns) as [|m mats IHm]; simpl; [reflexivity|].
  rewrite net_cons; simpl. rewrite IHm.
  destruct (Mat.lot m =? l)%string; simpl; lia.
Qed.

Lemma net_recredit_clear old l :
  net (recredit_deltas old []) l = bound_total old l.
Proof.
  unfold recredit_deltas, bound_total. rewrite net_flat_map.
  f_equal. apply map_ext. intros o. simpl. apply net_credit_all.
Qed.

(** X3: the first save of an invoice (no serial saved before) takes from
    every lot of the ledger exactly what the new bindings record for it,
    even when a serial or a lot is listed more than once. *)
Theorem first_save_debits_bound_total new db l :
  qty_of (reconcile [] new db) l =
  option_map (fun q => q - bound_total new l) (qty_of db l).
Proof.
  rewrite reconcile_deltas, qty_of_apply_deltas.
  change (recredit_deltas [] new) with (@nil (string * Z)).
  rewrite app_nil_r, net_consumption_first_save.
  destruct (qty_of db l); simpl; [f_equal; lia | reflexivity].
Qed.

(** X4: a save that leaves no serial at all gives back to every lot of
    the ledger everything the old bindings recorded for it, even when a
    serial or a lot was listed more than once. *)
Theorem clearing_recredits_bound_total old db l :
  qty_of (reconcile old [] db) l =
  option_map (fun q => q + bound_total old l) (qty_of db l).
Proof.
  rewrite reconcile_deltas, qty_of_apply_deltas.
  change (consumption_deltas old []) with (@nil (string * Z)).
  now rewrite app_nil_l, net_recredit_clear.
Qed.

Lemma update_stock_identity lot f db :
  map identity_of (update_stock lot f db) = map identity_of db.
Proof.
  induction db as [|m rest IH]; simpl; [reflexivity|].
  destruct (StockItem.lot_number m =? lot)%string; simpl; [reflexivity|].
  now rewrite IH.
Qed.

Lemma apply_deltas_identity ops db :
  map identity_of (apply_deltas ops db) = map identity_of db.
Proof.
  unfold apply_deltas. revert db.
  induction ops as [|op ops IH]; intros db; simpl; [reflexivity|].
  rewrite IH. apply update_stock_identity.
Qed.

Lemma update_stock_shadowed lot f m after : forall before,
  In (StockItem.lot_number m) (lots_of before)
  \/ (StockItem.lot_number m =? lot)%string = false ->
  exists before' after',
    update_stock lot f (before ++ m :: after) = before' ++ m :: after'
    /\ lots_of before' = lots_of before.
Proof.
  induction before as [|b before IH]; intros H.
  - destruct H as [[] | Hne]. simpl. rewrite Hne.
    exists [], (update_stock lot f after). split; reflexivity.
  - cbn [app update_stock].
    destruct (StockItem.lot_number b =? lot)%string eqn:Eb.
    + eexists (_ :: before), after. split; reflexivity.
    + destruct IH as (before' & after' & Heq & Hlots).
      { destruct H as [[Hb | Hin] | Hne]; auto.
        right. now rewrite <- Hb. }
      exists (b :: before'), after'. rewrite Heq. split; [reflexivity|].
      simpl. now rewrite Hlots.
Qed.

Lemma apply_deltas_shadowed ops : forall before m after,
  In (StockItem.lot_number m) (lots_of before) ->
  exists before' after',
    apply_deltas ops (before ++ m :: after) = before' ++ m :: after'
    /\ lots_of before' = lots_of before.
Proof.
  unfold apply_deltas.
  induction ops as [|op ops IH]; intros before m after Hin; simpl.
  - exists before, after. split; reflexivity.
  - unfold apply_delta at 2.
    destruct (update_stock_shadowed (fst op) (fun q => q + snd op) m after
                before (or_introl Hin)) as (b1 & a1 & Heq & Hlots).
    rewrite Heq.
    destruct (IH b1 m a1) as (b2 & a2 & Heq2 & Hlots2).
    { now rewrite Hlots. }
    exists b2, a2. split; [assumption | congruence].
Qed.

(** X5: a save changes quantities only: the ledger keeps its entries, in
    their order, each with its name, color, lot number and entry date,
    and an entry whose lot number already occurs earlier in the ledger
    keeps its quantity too. *)
Theorem reconcile_changes_quantities_only old new db :
  map identity_of (reconcile old new db) = map identity_of db
  /\ forall before m after,
       db = before ++ m :: after ->
       In (StockItem.lot_number m) (lots_of before) ->
       nth_error (reconcile old new db) (List.length before) = Some m.
Proof.
  rewrite reconcile_deltas.
  split; [apply apply_deltas_identity|].
  intros before m after -> Hin.
  destruct (apply_deltas_shadowed
              (consumption_deltas old new ++ recredit_deltas old new)
              before m after Hin) as (b' & a' & Heq & Hlots).
  rewrite Heq.
  assert (Hlen : List.length before = List.length b').
  { unfold lots_of in Hlots.
    rewrite <- (length_map StockItem.lot_number before), <- Hlots.
    apply length_map. }
  rewrite Hlen, nth_error_app2, Nat.sub_diag by lia. reflexivity.
Qed.

Lemma reconcile_changes_quantities_only_witness :
  nth_error
    (reconcile [] [binding "X-001" [("L1", 3)]]
       ([lot_entry "L1" 8] ++ lot_entry "L1" 5 :: []))
    (List.length [lot_entry "L1" 8])
  = Some (lot_entry "L1" 5).
Proof.
  apply (proj2 (reconcile_changes_quantities_only []
                  [binding "X-001" [("L1", 3)]]
                  ([lot_entry "L1" 8] ++ lot_entry "L1" 5 :: []))
           [lot_entry "L1" 8] (lot_entry "L1" 5) []).
  - reflexivity.
  - simpl. left. reflexivity.
Defined.

Lemma net_filter_self ops l :
  net (filter (fun op => negb (fst op =? l)%string) ops) l = 0.
Proof.
  induction ops as [|op ops IH]; simpl; [reflexivity|].
  destruct (fst op =? l)%string eqn:E; simpl; [exact IH|].
  now rewrite net_cons, E, IH.
Qed.

Lemma apply_deltas_empty_ledger ops : apply_deltas ops [] = [].
Proof. unfold apply_deltas. induction ops; simpl; auto. Qed.

(** Two delta lists with the same net effect on every lot give the same
    ledger. *)
Lemma apply_deltas_same_net db : forall ops1 ops2,
  (forall l, net ops1 l = net ops2 l) ->
  apply_deltas ops1 db = apply_deltas ops2 db.
Proof.
  induction db as [|m rest IH]; intros ops1 ops2 Hnet.
  - now rewrite !apply_deltas_empty_ledger.
  - rewrite !apply_deltas_cons, Hnet. f_equal.
    apply IH. intros l.
    destruct (StockItem.lot_number m =? l)%string eqn:E.
    + apply String.eqb_eq in E. subst l. now rewrite !net_filter_self.
    + now rewrite !net_filter_other.
Qed.

(** X6: two saves in a row, from bindings [a] to [b] and then from [b] to
    [c], leave the ledger exactly as the single save from [a] to [c] does,
    for well-formed binding lists: the intermediate state leaves no
    trace. *)
Theorem successive_saves_compose a b c db :
  well_formed a -> well_formed b -> well_formed c ->
  reconcile b c (reconcile a b db) = reconcile a c db.
Proof.
  intros Ha Hb Hc.
  rewrite !reconcile_deltas, <- apply_deltas_app.
  apply apply_deltas_same_net. intros l.
  rewrite net_app, !net_reconcile by assumption. lia.
Qed.

Lemma successive_saves_compose_witness :
  reconcile [binding "X-001" [("L1", 5)]] [binding "X-001" [("L2", 1)]]
    (reconcile [binding "X-001" [("L1", 2)]] [binding "X-001" [("L1", 5)]]
       [lot_entry "L1" 8; lot_entry "L2" 7])
  = reconcile [binding "X-001" [("L1", 2)]] [binding "X-001" [("L2", 1)]]
      [lot_entry "L1" 8; lot_entry "L2" 7].
Proof.
  apply successive_saves_compose;
    (split; [nodup_strings | repeat constructor; nodup_strings]).
Defined.

(** X7: saving an edit and then saving the previous bindings again puts
    the ledger back exactly as it was, for well-formed binding lists. *)
Theorem revert_restores_ledger old new db :
  well_formed old -> well_formed new ->
  reconcile new old (reconcile old new db) = db.
Proof.
  intros Hold Hnew.
  rewrite !reconcile_deltas, <- apply_deltas_app.
  change db with (apply_deltas [] db) at 2.
  apply apply_deltas_same_net. intros l.
  rewrite net_app, !net_reconcile by assumption.
  unfold net; simpl. lia.
Qed.

Lemma revert_restores_ledger_witness :
  reconcile [binding "X-001" [("L1", 5)]; binding "X-002" [("L2", 3)]]
    [binding "X-001" [("L1", 2)]]
    (reconcile [binding "X-001" [("L1", 2)]]
       [binding "X-001" [("L1", 5)]; binding "X-002" [("L2", 3)]]
       [lot_entry "L1" 8; lot_entry "L2" 7])
  = [lot_entry "L1" 8; lot_entry "L2" 7].
Proof.
  apply revert_restores_ledger;
    (split; [nodup_strings | repeat constructor; nodup_strings]).
Defined.

(** ** More on pricing *)








(** ** Quote numbers *)

Lemma prefix_append (s t : string) : String.prefix s (s ++ t)%string = true.
Proof.
  induction s as [|c s IH]; simpl.
  - now destruct t.
  - destruct (ascii_dec c c) as [_|Hne]; [exact IH | contradiction].
Qed.

Lemma today_quotes_app today db1 db2 :
  today_quotes today (db1 ++ db2) =
  today_quotes today db1 ++ today_quotes today db2.
Proof. unfold today_quotes. apply filter_app. Qed.

(** X12: when today's quotes carry the first [n] numbers of the day,
    [next_quote_number] returns a number that no quote of the database
    has, and the database with a quote of that number appended is again
    numbered in sequence: numbers handed out one after the other never
    collide. *)
Theorem next_quote_number_fresh today QUOTES_DB quote :
  numbered_in_sequence today QUOTES_DB ->
  Quote.number quote = next_quote_number today QUOTES_DB ->
  (forall q, In q QUOTES_DB -> Quote.number q <> Quote.number quote)
  /\ numbered_in_sequence today (QUOTES_DB ++ [quote]).
Proof.
  intros Hseq Hnum.
  set (n := List.length (today_quotes today QUOTES_DB)) in *.
  assert (Hpre : String.prefix today (Quote.number quote) = true).
  { rewrite Hnum. unfold next_quote_number, generate_serial.
    apply prefix_append. }
  assert (Htq : today_quotes today (QUOTES_DB ++ [quote]) =
                today_quotes today QUOTES_DB ++ [quote]).
  { rewrite today_quotes_app. unfold today_quotes at 2; simpl.
    now rewrite Hpre. }
  split.
  - intros q Hq Heq.
    assert (Hin : In q (today_quotes today QUOTES_DB)).
    { unfold today_quotes. apply filter_In. split; [assumption|].
      now rewrite Heq. }
    destruct (Hseq q Hin) as [k [Hk Hqk]]. fold n in Hk.
    rewrite Heq, Hnum in Hqk. unfold next_quote_number in Hqk. fold n in Hqk.
    apply generate_serial_cancel in Hqk. lia.
  - intros q Hq. rewrite Htq in Hq |- *. rewrite length_app; simpl.
    fold n. apply in_app_or in Hq. destruct Hq as [Hq | [<- | []]].
    + destruct (Hseq q Hq) as [k [Hk Hqk]]. fold n in Hk.
      exists k. split; [lia | assumption].
    + exists (n + 1)%nat. split; [lia|].
      rewrite Hnum. unfold next_quote_number. fold n. f_equal. lia.
Qed.

(** ** Saving a quote *)

Lemma remove_first_unique {A : Type} (key : A -> string) (k : string) l :
  NoDup (map key l) ->
  remove_first (fun x => key x =? k)%string l =
  filter (fun x => negb (key x =? k)%string) l.
Proof.
  induction l as [|x l IH]; simpl; intros Hnd; [reflexivity|].
  inversion Hnd as [|? ? Hnotin Hnd']; subst.
  destruct (key x =? k)%string eqn:E; simpl.
  - apply String.eqb_eq in E. subst k. symmetry.
    clear - Hnotin. induction l as [|y l IHl]; simpl; [reflexivity|].
    destruct (key y =? key x)%string eqn:E; simpl.
    + apply String.eqb_eq in E. exfalso. apply Hnotin. left. assumption.
    + f_equal. apply IHl. intros H. apply Hnotin. now right.
  - f_equal. now apply IH.
Qed.

Lemma filter_all {A : Type} (p : A -> bool) (l : list A) :
  find (fun x => negb (p x)) l = None -> filter p l = l.
Proof.
  induction l as [|x l IH]; simpl; [reflexivity|].
  destruct (p x); simpl; [|discriminate].
  intros H. f_equal. now apply IH.
Qed.

Lemma save_quote_unique QUOTES_DB new_quote :
  NoDup (map Quote.number QUOTES_DB) ->
  save_quote QUOTES_DB new_quote =
  filter (fun q => negb (Quote.number q =? Quote.number new_quote)%string)
    QUOTES_DB ++ [new_quote].
Proof.
  intros Hnd. unfold save_quote.
  destruct (next _ QUOTES_DB) eqn:Hn.
  - now rewrite (remove_first_unique Quote.number).
  - f_equal. symmetry. apply filter_all. unfold next in Hn.
    rewrite <- Hn. clear. induction QUOTES_DB as [|q l IH]; simpl;
      [reflexivity|].
    destruct (Quote.number q =? Quote.number new_quote)%string; simpl;
      [reflexivity | exact IH].
Qed.

Lemma NoDup_map_filter {A B : Type} (f : A -> B) (p : A -> bool) l :
  NoDup (map f l) -> NoDup (map f (filter p l)).
Proof.
  induction l as [|x l IH]; simpl; intros Hnd; [constructor|].
  inversion Hnd as [|? ? Hnotin Hnd']; subst.
  destruct (p x); simpl; [|now apply IH].
  constructor; [|now apply IH].
  intros Hin. apply Hnotin. apply in_map_iff in Hin.
  destruct Hin as [y [Hy Hin]]. apply filter_In in Hin.
  apply in_map_iff. exists y. tauto.
Qed.

(** X13: saving a quote in a database whose numbers are pairwise distinct
    replaces the quote of the same number if there is one: afterwards the
    numbers are still pairwise distinct, a lookup by the number finds the
    saved quote, and the quotes with other numbers are all there, in
    their order, before the saved one. *)
Theorem save_quote_replaces QUOTES_DB new_quote :
  NoDup (map Quote.number QUOTES_DB) ->
  NoDup (map Quote.number (save_quote QUOTES_DB new_quote))
  /\ next (fun q => (Quote.number q =? Quote.number new_quote)%string)
       (save_quote QUOTES_DB new_quote) = Some new_quote
  /\ save_quote QUOTES_DB new_quote =
     filter (fun q => negb (Quote.number q =? Quote.number new_quote)%string)
       QUOTES_DB ++ [new_quote].
Proof.
  intros Hnd. rewrite (save_quote_unique _ _ Hnd).
  set (others := filter _ QUOTES_DB).
  assert (Hnone : forall q, In q others ->
            (Quote.number q =? Quote.number new_quote)%string = false).
  { intros q Hq. apply filter_In in Hq. destruct Hq as [_ Hq].
    now apply negb_true_iff in Hq. }
  repeat split.
  - rewrite map_app; simpl. apply NoDup_app.
    + now apply NoDup_map_filter.
    + repeat constructor. intros [].
    + intros x Hx [<- | []]. apply in_map_iff in Hx.
      destruct Hx as [q [Hq Hin]]. specialize (Hnone q Hin).
      rewrite Hq, String.eqb_refl in Hnone. discriminate.
  - unfold next. clearbody others.
    induction others as [|q l IH]; simpl.
    + now rewrite String.eqb_refl.
    + rewrite (Hnone q) by (now left). apply IH.
      intros q' Hq'. apply Hnone. now right.
Qed.

Lemma next_quote_number_fresh_witness :
  (forall q, In q [sample_quote "20240115-001"] ->
     Quote.number q <> Quote.number (sample_quote "20240115-002"))
  /\ numbered_in_sequence "20240115"
       ([sample_quote "20240115-001"] ++ [sample_quote "20240115-002"]).
Proof.
  apply (next_quote_number_fresh "20240115" [sample_quote "20240115-001"]
           (sample_quote "20240115-002")).
  - intros q [<- | []]. exists 1%nat. split; [simpl; lia | reflexivity].
  - reflexivity.
Defined.

Lemma save_quote_replaces_witness :
  NoDup (map Quote.number
           (save_quote [sample_quote "20240115-001"; sample_quote "20240115-002"]
              (sample_quote "20240115-001"))).
Proof.
  apply (save_quote_replaces
           [sample_quote "20240115-001"; sample_quote "20240115-002"]
           (sample_quote "20240115-001")).
  nodup_strings.
Defined.

(** ** The company loader *)



(** ** Loading a file that exists *)

Lemma for_each_ok {A B : Type} (body : A -> Store.result B) (l : list A) ys :
  Store.for_each body l = Store.Ok ys <->
  Forall2 (fun x y => body x = Store.Ok y) l ys.
Proof.
  revert ys. induction l as [|x l IH]; intros ys; simpl.
  - split.
    + intros H. injection H as <-. constructor.
    + intros H. inversion H. reflexivity.
  - split.
    + destruct (body x) as [y|e] eqn:Hx; simpl; [|discriminate].
      destruct (Store.for_each body l) as [ys'|e] eqn:Hl; simpl;
        [|discriminate].
      intros H. injection H as <-. constructor; [assumption|].
      now apply IH.
    + intros H. inversion H as [|? y ? ys' Hx Hl]; subst.
      rewrite Hx; simpl. apply IH in Hl. rewrite Hl. reflexivity.
Qed.

Lemma never_fnf_bind {A B : Type} (c : Store.result A)
    (k : A -> Store.result B) :
  never_file_not_found c -> (forall a, never_file_not_found (k a)) ->
  never_file_not_found (Store.bind c k).
Proof.
  unfold never_file_not_found. intros Hc Hk.
  destruct c as [a|e]; simpl; [apply Hk|].
  intros H. apply Hc. injection H as ->. reflexivity.
Qed.

Lemma never_fnf_ok {A : Type} (a : A) : never_file_not_found (Store.Ok a).
Proof. discriminate. Qed.

Lemma never_fnf_for_each {A B : Type} (body : A -> Store.result B) l :
  (forall x, never_file_not_found (body x)) ->
  never_file_not_found (Store.for_each body l).
Proof.
  intros Hb. induction l as [|x l IH]; simpl; [apply never_fnf_ok|].
  apply never_fnf_bind; [apply Hb|]. intros y.
  apply never_fnf_bind; [apply IH|]. intros ys. apply never_fnf_ok.
Qed.

Lemma never_fnf_getitem r k : never_file_not_found (Store.getitem r k).
Proof.
  unfold never_file_not_found, Store.getitem.
  destruct (Store.lookup k r); discriminate.
Qed.

Section ExistingFile.
Variable fs : string -> option (list Store.row).
Variable float_of_string : string -> option Q.
Variable int_of_string : string -> option Z.
Variable strptime_ymd : string -> option (Z * Z * Z).
Variable json_loads : string -> option Store.value.

Local Abbreviation load_quote_row :=
  (Store.load_quote_row float_of_string strptime_ymd json_loads).
Local Abbreviation load_quotes :=
  (Store.load_quotes fs float_of_string strptime_ymd json_loads).
Local Abbreviation load_stock_row := (Persist.load_stock_row int_of_string).
Local Abbreviation load_stock := (Store.load_stock fs int_of_string).

Lemma never_fnf_py_float c :
  never_file_not_found (Store.py_float float_of_string c).
Proof.
  unfold never_file_not_found, Store.py_float.
  destruct c as [s|]; [destruct (float_of_string s)|]; discriminate.
Qed.

Lemma never_fnf_py_int c :
  never_file_not_found (Store.py_int int_of_string c).
Proof.
  unfold never_file_not_found, Store.py_int.
  destruct c as [s|]; [destruct (int_of_string s)|]; discriminate.
Qed.

Lemma never_fnf_py_strptime c :
  never_file_not_found (Store.py_strptime strptime_ymd c).
Proof.
  unfold never_file_not_found, Store.py_strptime.
  destruct c as [s|]; [destruct (strptime_ymd s)|]; discriminate.
Qed.

Lemma never_fnf_loads c : never_file_not_found (Store.loads json_loads c).
Proof.
  unfold never_file_not_found, Store.loads.
  destruct c as [s|]; [destruct (json_loads s)|]; discriminate.
Qed.

Lemma never_fnf_item_of_kwargs v :
  never_file_not_found (Store.item_of_kwargs v).
Proof.
  unfold never_file_not_found, Store.item_of_kwargs.
  destruct v; try discriminate.
  destruct (forallb _ kvs); [|discriminate].
  destruct (Store.vlookup "description" kvs),
    (Store.vlookup "unit_price" kvs), (Store.vlookup "quantity" kvs);
    discriminate.
Qed.

Ltac never_fnf :=
  repeat first
    [ apply never_fnf_ok
    | apply never_fnf_getitem
    | apply never_fnf_py_float
    | apply never_fnf_py_int
    | apply never_fnf_py_strptime
    | apply never_fnf_loads
    | apply never_fnf_for_each; intro
    | apply never_fnf_item_of_kwargs
    | apply never_fnf_bind; [|intro] ].

Lemma never_fnf_load_quote_row r : never_file_not_found (load_quote_row r).
Proof.
  unfold Store.load_quote_row, Store.load_items, Store.load_client.
  never_fnf.
  unfold never_file_not_found, Store.py_iter.
  match goal with |- context [match ?v with _ => _ end] => destruct v end;
    discriminate.
Qed.

Lemma never_fnf_load_stock_row r : never_file_not_found (load_stock_row r).
Proof. unfold Persist.load_stock_row. never_fnf. Qed.

Lemma except_fnf_ok {A : Type} (c : Store.result (list A)) ys :
  never_file_not_found c ->
  (Store.except_FileNotFoundError c [] = Store.Ok ys <-> c = Store.Ok ys).
Proof.
  unfold never_file_not_found, Store.except_FileNotFoundError.
  intros Hc. destruct c as [a|[]]; try tauto; split; discriminate.
Qed.

(** X15: when the file exists, [load_quotes] and [load_stock] return a
    list exactly when every row of the file loads, and then one record
    per row, in the order of the file: a single row that does not load
    (a missing column, a date, number or items cell that does not parse)
    makes the whole load fail, with no partial result. *)
Theorem existing_file_loads_all_or_nothing path rows :
  fs path = Some rows ->
  (forall quotes,
      load_quotes path = Store.Ok quotes <->
      Forall2 (fun r q => load_quote_row r = Store.Ok q) rows quotes)
  /\ (forall stock,
         load_stock path = Store.Ok stock <->
         Forall2 (fun r s => load_stock_row r = Store.Ok s) rows stock).
Proof.
  intros Hfs. split.
  - intros quotes. unfold Store.load_quotes, Store.open_csv. rewrite Hfs.
    cbn [Store.bind].
    rewrite except_fnf_ok
      by (apply never_fnf_for_each, never_fnf_load_quote_row).
    apply for_each_ok.
  - intros stock. unfold Store.load_stock, Store.open_csv. rewrite Hfs.
    cbn [Store.bind].
    change (Store.for_each _ rows)
      with (Store.for_each load_stock_row rows).
    rewrite except_fnf_ok
      by (apply never_fnf_for_each, never_fnf_load_stock_row).
    apply for_each_ok.
Qed.
End ExistingFile.

Lemma existing_file_loads_all_or_nothing_witness :
  Store.load_quotes (fun _ => Some [Store.legacy_row]) Store.toy_float
    Store.toy_date Store.toy_json_loads "quotes.csv" = Store.Ok [] <->
  Forall2
    (fun r q =>
       Store.load_quote_row Store.toy_float Store.toy_date
         Store.toy_json_loads r = Store.Ok q)
    [Store.legacy_row] [].
Proof.
  apply (existing_file_loads_all_or_nothing
           (fun _ => Some [Store.legacy_row]) Store.toy_float Store.toy_int
           Store.toy_date Store.toy_json_loads "quotes.csv"
           [Store.legacy_row]).
  reflexivity.
Defined.

(** ** Saving and loading again *)

Lemma parse_py_str_int z : parse_03d (Persist.py_str_int z) = Some z.
Proof.
  unfold Persist.py_str_int, parse_03d.
  destruct (Z.ltb_spec z 0) as [Hneg | Hpos]; cbn [String.append].
  - cbn [NilEmpty.uint_of_string]. rewrite NilEmpty.usu. cbn.
    rewrite DecimalN.Unsigned.of_to. f_equal. lia.
  - rewrite NilEmpty.usu, DecimalN.Unsigned.of_to. f_equal. lia.
Qed.

Lemma for_each_map {A B C : Type} (f : A -> B) (body : B -> Store.result C)
    (g : A -> C) (l : list A) :
  (forall x, In x l -> body (f x) = Store.Ok (g x)) ->
  Store.for_each body (map f l) = Store.Ok (map g l).
Proof.
  induction l as [|x l IH]; intros H; simpl; [reflexivity|].
  rewrite (H x) by (now left); simpl.
  rewrite IH by (intros y Hy; apply H; now right). reflexivity.
Qed.

Lemma open_written fs path rows :
  Store.open_csv (Persist.write_csv fs path rows) path = Store.Ok rows.
Proof.
  unfold Store.open_csv, Persist.write_csv. now rewrite String.eqb_refl.
Qed.

Section RoundTrips.
Variable fs : string -> option (list Store.row).
Variable float_of_string : string -> option Q.
Variable int_of_string : string -> option Z.
Variable strptime_ymd : string -> option (Z * Z * Z).
Variable json_loads : string -> option Store.value.
Variable py_str_value : Store.value -> string.
Variable py_str_float : Q -> string.
Variable isoformat : Z * Z * Z -> string.
Variable json_dumps : Store.value -> string.

Local Abbreviation as_read := (Persist.as_read py_str_value).
Local Abbreviation stock_as_read := (Persist.stock_as_read py_str_value).
Local Abbreviation quote_as_read := (Persist.quote_as_read py_str_value).

Lemma as_read_idempotent v : as_read (as_read v) = as_read v.
Proof. reflexivity. Qed.


Lemma item_of_kwargs_vars it :
  Store.item_of_kwargs (Persist.vars_of_item it) = Store.Ok it.
Proof. destruct it. reflexivity. Qed.

(** X17: when the parsers read back the texts written for a quote (date,
    discount value, JSON) and [json.loads] reads "[]" as the empty list,
    saving quotes and loading the file gives the quotes back: items,
    date, discount and the percent flag as they were, each text field as
    the string [csv] wrote, and materials or serials that were [None] or
    empty as the empty list. *)
Theorem quotes_round_trip path quotes :
  json_loads "[]" = Some (Store.VList []) ->
  Forall (quote_reads_back float_of_string strptime_ymd json_loads
            py_str_float isoformat json_dumps) quotes ->
  Store.load_quotes
    (Persist.save_quotes py_str_value py_str_float isoformat json_dumps
       quotes fs path)
    float_of_string strptime_ymd json_loads path
  = Store.Ok (map quote_as_read quotes).
Proof.
  intros Hempty Hall.
  unfold Store.load_quotes, Persist.save_quotes.
  rewrite open_written. cbn [Store.bind].
  rewrite (for_each_map
             (Persist.quote_row py_str_value py_str_float isoformat json_dumps)
             _ quote_as_read); [reflexivity|].
  intros q Hq. rewrite Forall_forall in Hall.
  destruct (Hall q Hq) as (Hf & Hd & Hi & Hm & Hs).
  unfold Store.load_quote_row, Store.load_items, Store.load_client,
    Store.load_json_column, Persist.quote_row, Store.getitem, Store.get.
  cbn [Store.lookup String.eqb Ascii.eqb Bool.eqb Store.bind].
  unfold Store.loads, Store.py_strptime, Store.py_float.
  rewrite Hi, Hd, Hf. cbn [Store.bind Store.py_iter].
  rewrite (for_each_map Persist.vars_of_item _ (fun it => it))
    by (intros it _; apply item_of_kwargs_vars).
  rewrite map_id. cbn [Store.bind].
  unfold Persist.quote_as_read, Persist.list_as_read, Persist.dumps_or_empty.
  f_equal. f_equal.
  - now destruct (Store.discount_is_percent q).
  - destruct (Persist.truthy (Store.materials q)) eqn:E.
    + now rewrite Hm.
    + now rewrite Hempty.
  - destruct (Persist.truthy (Store.serials q)) eqn:E.
    + now rewrite Hs.
    + now rewrite Hempty.
Qed.
End RoundTrips.


Lemma quotes_round_trip_witness :
  Store.load_quotes
    (Persist.save_quotes (fun _ => "") (fun _ => "10") (fun _ => "2024-01-15")
       (fun _ => "[]") [stored_sample_quote] (fun _ => None) "quotes.csv")
    Store.toy_float Store.toy_date Store.toy_json_loads "quotes.csv"
  = Store.Ok (map (Persist.quote_as_read (fun _ => "")) [stored_sample_quote]).
Proof.
  apply (quotes_round_trip (fun _ => None) Store.toy_float Store.toy_date
           Store.toy_json_loads (fun _ => "") (fun _ => "10")
           (fun _ => "2024-01-15") (fun _ => "[]") "quotes.csv"
           [stored_sample_quote]).
  - reflexivity.
  - repeat constructor; simpl; discriminate.
Defined.
